(** * pwgen.py: a shallow embedding and its verification

    The program [pwgen] (src/pwgen.py) picks four words from a word list,
    hashes the phrase with SHA-256, draws fifteen characters of the hex
    digest, capitalises one letter, adds one symbol and prints the result
    in blocks of four characters.

    Python values are modelled as the program has them: an [int] is a [Z],
    a [str] is the list of its code points, [bytes] is a list of
    [Byte.byte], a raised exception is a [Raise] result.  The process-wide
    random generator, the word-list file and standard output form the
    [world] that the program threads through its calls. *)

From Stdlib.Strings Require Import String Ascii Byte.
From Stdlib Require Import ZArith NArith List Bool Lia.
Import ListNotations.

(* ================================================================== *)
(** ** Exceptions and results *)

Inductive exn : Type :=
| FileNotFoundError
| IsADirectoryError
| PermissionError
| OSError
| UnicodeDecodeError
| IndexError
| ValueError
| UnicodeEncodeError.

Inductive result (A : Type) : Type :=
| Ok (a : A)
| Raise (e : exn).

Arguments Ok {A} a.
Arguments Raise {A} e.

Definition rbind {A B} (r : result A) (k : A -> result B) : result B :=
  match r with
  | Ok a => k a
  | Raise e => Raise e
  end.

Fixpoint rmap {A B} (f : A -> result B) (l : list A) : result (list B) :=
  match l with
  | [] => Ok []
  | x :: t => rbind (f x) (fun y => rbind (rmap f t) (fun ys => Ok (y :: ys)))
  end.

(* ================================================================== *)
(** ** Python built-ins used by the program *)

Module Py.

(** A character is its code point ([ord]); a [str] is a list of them. *)
Definition char : Type := N.
Definition str : Type := list char.

(** A string literal of the source. *)
Definition lit (s : string) : str := map N_of_ascii (list_ascii_of_string s).

(** [len(s)] *)
Definition len {A} (s : list A) : Z := Z.of_nat (length s).

(** Slice bounds are clamped the way CPython's [PySlice_AdjustIndices]
    does for a step of 1: a negative bound counts from the end. *)
Definition clamp (n j : Z) : Z :=
  if (j <? 0)%Z then Z.max 0 (n + j) else Z.min j n.

(** [s[i:j]] *)
Definition slice {A} (s : list A) (i j : Z) : list A :=
  let lo := clamp (len s) i in
  let hi := clamp (len s) j in
  firstn (Z.to_nat (hi - lo)) (skipn (Z.to_nat lo) s).

(** [s[:j]] and [s[i:]] *)
Definition slice_to {A} (s : list A) (j : Z) : list A := slice s 0 j.
Definition slice_from {A} (s : list A) (i : Z) : list A := slice s i (len s).

(** [s[i]] *)
Definition getitem {A} (s : list A) (i : Z) : result A :=
  let k := if (i <? 0)%Z then (i + len s)%Z else i in
  if (k <? 0)%Z then Raise IndexError
  else match nth_error s (Z.to_nat k) with
       | Some x => Ok x
       | None => Raise IndexError
       end.

(** [c in s] for a one-character string [c] *)
Definition contains (s : str) (c : char) : bool := existsb (N.eqb c) s.

Fixpoint find (s : str) (c : char) : option nat :=
  match s with
  | [] => None
  | x :: t => if N.eqb x c then Some O
              else match find t c with
                   | Some k => Some (S k)
                   | None => None
                   end
  end.

(** [s.index(c)] for a one-character string [c]: the lowest index at
    which [c] occurs, [ValueError] when it does not occur. *)
Definition index (s : str) (c : char) : result Z :=
  match find s c with
  | Some k => Ok (Z.of_nat k)
  | None => Raise ValueError
  end.

(** [c.upper()] on the ASCII letters.  The program applies it to a
    character of [capl] only; code points outside [a-z] are left as
    they are. *)
Definition upper (c : char) : char :=
  if ((97 <=? c) && (c <=? 122))%N then (c - 32)%N else c.

(** [c.lower()] and [c.isupper()] on the ASCII letters *)
Definition lower (c : char) : char :=
  if ((65 <=? c) && (c <=? 90))%N then (c + 32)%N else c.

Definition isupper (c : char) : bool := ((65 <=? c) && (c <=? 90))%N.

(** [c.isspace()]: the code points CPython's [_PyUnicode_IsWhitespace]
    accepts. *)
Definition isspace (c : char) : bool :=
  (((9 <=? c) && (c <=? 13)) || ((28 <=? c) && (c <=? 32))
   || (c =? 133) || (c =? 160) || (c =? 5760)
   || ((8192 <=? c) && (c <=? 8202))
   || (c =? 8232) || (c =? 8233) || (c =? 8239) || (c =? 8287)
   || (c =? 12288))%N.

(** [s.rstrip()] *)
Fixpoint rstrip (s : str) : str :=
  match s with
  | [] => []
  | c :: t => match rstrip t with
              | [] => if isspace c then [] else [c]
              | t' => c :: t'
              end
  end.

(** [sep.join(l)] *)
Fixpoint join (sep : str) (l : list str) : str :=
  match l with
  | [] => []
  | [x] => x
  | x :: t => x ++ sep ++ join sep t
  end.

(** [range(start, stop, step)] for a positive step *)
Definition range (start stop step : Z) : list Z :=
  map (fun k => (start + step * Z.of_nat k)%Z)
      (seq 0 (Z.to_nat ((stop - start + step - 1) / step))).

(** [s.replace(" ", "")] *)
Definition remove_spaces (s : str) : str :=
  filter (fun c => negb (N.eqb c 32)) s.

End Py.

Import Py.

(* ================================================================== *)
(** ** [str.encode()]: UTF-8, strict *)

Module Utf8.

Local Open Scope N_scope.

Definition byte_of (n : N) : byte :=
  match Byte.of_N (n mod 256) with
  | Some b => b
  | None => x00
  end.

(** A code point that strict UTF-8 encodes: below [0x110000] and not a
    surrogate. *)
Definition scalar (c : char) : bool :=
  (c <? 0xD800) || ((0xDFFF <? c) && (c <? 0x110000)).

Definition cont (c : N) (shift : N) : byte :=
  byte_of (N.lor 0x80 (N.land (N.shiftr c shift) 0x3F)).

Definition encode_char (c : char) : result (list byte) :=
  if negb (scalar c) then Raise UnicodeEncodeError
  else if c <? 0x80 then Ok [byte_of c]
  else if c <? 0x800 then
    Ok [byte_of (N.lor 0xC0 (N.shiftr c 6)); cont c 0]
  else if c <? 0x10000 then
    Ok [byte_of (N.lor 0xE0 (N.shiftr c 12)); cont c 6; cont c 0]
  else
    Ok [byte_of (N.lor 0xF0 (N.shiftr c 18)); cont c 12; cont c 6; cont c 0].

Definition encode (s : str) : result (list byte) :=
  rbind (rmap encode_char s) (fun bss => Ok (concat bss)).

End Utf8.

(* ================================================================== *)
(** ** [hashlib.sha256]: FIPS 180-4 on 32-bit words *)

Module Sha256.

Local Open Scope N_scope.

Definition add32 (x y : N) : N := (x + y) mod 2 ^ 32.

Definition rotr (n x : N) : N :=
  N.lor (N.shiftr x n) ((N.shiftl x (32 - n)) mod 2 ^ 32).

Definition not32 (x : N) : N := N.lxor x 0xFFFFFFFF.

Definition Ch (x y z : N) : N := N.lxor (N.land x y) (N.land (not32 x) z).

Definition Maj (x y z : N) : N :=
  N.lxor (N.lxor (N.land x y) (N.land x z)) (N.land y z).

Definition Sigma0 (x : N) : N :=
  N.lxor (N.lxor (rotr 2 x) (rotr 13 x)) (rotr 22 x).

Definition Sigma1 (x : N) : N :=
  N.lxor (N.lxor (rotr 6 x) (rotr 11 x)) (rotr 25 x).

Definition sigma0 (x : N) : N :=
  N.lxor (N.lxor (rotr 7 x) (rotr 18 x)) (N.shiftr x 3).

Definition sigma1 (x : N) : N :=
  N.lxor (N.lxor (rotr 17 x) (rotr 19 x)) (N.shiftr x 10).

(** The constants of the standard, as it defines them: the first 32 bits
    of the fractional parts of the cube roots of the first 64 primes, and,
    for the initial hash value, of the square roots of the first 8. *)
Definition is_prime (n : nat) : bool :=
  forallb (fun d => negb (Nat.eqb (Nat.modulo n d) 0)) (seq 2 (n - 2)).

Definition primes64 : list N :=
  Eval vm_compute in map N.of_nat (filter is_prime (seq 2 310)).

(** The integer cube root of a number below [2 ^ (3 * bits)], one bit
    at a time from the top. *)
Fixpoint cube_root (bits : nat) (n r : N) : N :=
  match bits with
  | O => r
  | S b => let r' := r + 2 ^ N.of_nat b in
           cube_root b n (if r' * r' * r' <=? n then r' else r)
  end.

Definition frac_cube_root (p : N) : N := cube_root 35 (p * 2 ^ 96) 0 mod 2 ^ 32.

Definition frac_square_root (p : N) : N := N.sqrt (p * 2 ^ 64) mod 2 ^ 32.

Definition K : list N := Eval vm_compute in map frac_cube_root primes64.

(** The eight working variables and the hash value. *)
Record regs : Type := Regs { ra : N; rb : N; rc : N; rd : N;
                             re : N; rf : N; rg : N; rh : N }.

Definition H0 : regs :=
  Eval vm_compute in
    Regs (frac_square_root 2) (frac_square_root 3) (frac_square_root 5)
         (frac_square_root 7) (frac_square_root 11) (frac_square_root 13)
         (frac_square_root 17) (frac_square_root 19).

(** Padding: a [0x80] byte, zero bytes up to 56 modulo 64, then the
    message length in bits as a 64-bit big-endian number. *)
Definition be_bytes (width : nat) (x : N) : list byte :=
  map (fun k => Utf8.byte_of (N.shiftr x (8 * N.of_nat k))) (rev (seq 0 width)).

Definition pad (msg : list byte) : list byte :=
  let l := length msg in
  let zeros := ((64 - (l + 9) mod 64) mod 64)%nat in
  msg ++ [x80] ++ repeat x00 zeros
      ++ be_bytes 8 ((8 * N.of_nat l) mod 2 ^ 64).

Fixpoint words_of (bs : list byte) : list N :=
  match bs with
  | b0 :: b1 :: b2 :: b3 :: t =>
      (((Byte.to_N b0 * 256 + Byte.to_N b1) * 256 + Byte.to_N b2) * 256
       + Byte.to_N b3) :: words_of t
  | _ => []
  end.

(** Message schedule: [w] holds W[0..i-1]; one step appends W[i]. *)
Definition schedule_step (w : list N) : list N :=
  let i := length w in
  let at_ k := nth (i - k) w 0 in
  w ++ [add32 (add32 (sigma1 (at_ 2%nat)) (at_ 7%nat))
              (add32 (sigma0 (at_ 15%nat)) (at_ 16%nat))].

Definition schedule (block : list N) : list N :=
  Nat.iter 48 schedule_step block.

Definition round (s : regs) (kw : N * N) : regs :=
  let (k, w) := kw in
  let t1 := add32 (add32 (add32 (add32 (rh s) (Sigma1 (re s)))
                                (Ch (re s) (rf s) (rg s))) k) w in
  let t2 := add32 (Sigma0 (ra s)) (Maj (ra s) (rb s) (rc s)) in
  Regs (add32 t1 t2) (ra s) (rb s) (rc s) (add32 (rd s) t1) (re s) (rf s) (rg s).

Definition compress (h : regs) (block : list N) : regs :=
  let s := fold_left round (combine K (schedule block)) h in
  Regs (add32 (ra h) (ra s)) (add32 (rb h) (rb s))
       (add32 (rc h) (rc s)) (add32 (rd h) (rd s))
       (add32 (re h) (re s)) (add32 (rf h) (rf s))
       (add32 (rg h) (rg s)) (add32 (rh h) (rh s)).

Fixpoint blocks (n : nat) (ws : list N) (h : regs) : regs :=
  match n with
  | O => h
  | S n' => blocks n' (skipn 16 ws) (compress h (firstn 16 ws))
  end.

(** [hashlib.sha256(msg).digest()] *)
Definition digest (msg : list byte) : list byte :=
  let ws := words_of (pad msg) in
  let h := blocks (length ws / 16) ws H0 in
  be_bytes 4 (ra h) ++ be_bytes 4 (rb h) ++ be_bytes 4 (rc h)
    ++ be_bytes 4 (rd h) ++ be_bytes 4 (re h) ++ be_bytes 4 (rf h)
    ++ be_bytes 4 (rg h) ++ be_bytes 4 (rh h).

Definition hexdigits : str := lit "0123456789abcdef".

Definition hexdigit (n : N) : char := nth (N.to_nat n) hexdigits 0.

Definition hex_of_byte (b : byte) : str :=
  [hexdigit (Byte.to_N b / 16); hexdigit (Byte.to_N b mod 16)].

(** [hashlib.sha256(msg).hexdigest()] *)
Definition hexdigest (msg : list byte) : str :=
  flat_map hex_of_byte (digest msg).

End Sha256.

(* ================================================================== *)
(** ** What UTF-8 and SHA-256 are

    The two modules above are the library code behind line 57.  The two
    below state, after RFC 3629 and FIPS 180-4, what that code has to
    compute; the octets of a message are numbers below 256.  The
    operations on words of section 3.2 of FIPS 180-4 and the six logical
    functions of its section 4.1.2 are [Sha256.rotr], [Sha256.add32],
    [Sha256.Ch] and the like, written above as the standard writes
    them. *)

Module Rfc3629.

Local Open Scope N_scope.

(** Section 3.  The bits of the character number fill the x of
    0xxxxxxx, of 110xxxxx 10xxxxxx, of 1110xxxx 10xxxxxx 10xxxxxx or of
    11110xxx 10xxxxxx 10xxxxxx 10xxxxxx, the shortest that holds them. *)
Definition octets (c : N) : list N :=
  if c <? 128 then [c]
  else if c <? 2048 then [192 + c / 64; 128 + c mod 64]
  else if c <? 65536 then
    [224 + c / 4096; 128 + (c / 64) mod 64; 128 + c mod 64]
  else
    [240 + c / 262144; 128 + (c / 4096) mod 64; 128 + (c / 64) mod 64;
     128 + c mod 64].

Definition encoding (s : str) : list N := flat_map octets s.

(** Reading the character numbers back: the first octet of a sequence
    tells its length. *)
Fixpoint decoding (os : list N) : option str :=
  match os with
  | [] => Some []
  | a :: t =>
      if a <? 128 then option_map (cons a) (decoding t)
      else if a <? 224 then
        match t with
        | b :: t' =>
            option_map (cons ((a - 192) * 64 + (b - 128))) (decoding t')
        | _ => None
        end
      else if a <? 240 then
        match t with
        | b :: c :: t' =>
            option_map (cons ((a - 224) * 4096 + (b - 128) * 64 + (c - 128)))
                       (decoding t')
        | _ => None
        end
      else
        match t with
        | b :: c :: d :: t' =>
            option_map (cons ((a - 240) * 262144 + (b - 128) * 4096
                              + (c - 128) * 64 + (d - 128)))
                       (decoding t')
        | _ => None
        end
  end.

End Rfc3629.

Module Fips180.

Import Sha256.

Local Open Scope N_scope.

(** The hexadecimal notation of the standard. *)
Definition hex_value (c : char) : option N :=
  if (48 <=? c) && (c <=? 57) then Some (c - 48)
  else if (97 <=? c) && (c <=? 102) then Some (c - 87)
  else None.

Fixpoint word_of_hex (acc : N) (s : str) : N :=
  match s with
  | [] => acc
  | c :: t => match hex_value c with
              | Some v => word_of_hex (16 * acc + v) t
              | None => word_of_hex acc t
              end
  end.

Fixpoint table (cur : str) (s : str) : list N :=
  match s with
  | [] => match cur with
          | [] => []
          | _ => [word_of_hex 0 (rev cur)]
          end
  | c :: t => if c =? 32
              then match cur with
                   | [] => table [] t
                   | _ => word_of_hex 0 (rev cur) :: table [] t
                   end
              else table (c :: cur) t
  end.

(** Section 4.2.2: the sixty-four constant words, from left to right. *)
Definition K : list N :=
  Eval vm_compute in
    table [] (lit
      ("428a2f98 71374491 b5c0fbcf e9b5dba5 3956c25b 59f111f1 923f82a4 ab1c5ed5 "
       ++ "d807aa98 12835b01 243185be 550c7dc3 72be5d74 80deb1fe 9bdc06a7 c19bf174 "
       ++ "e49b69c1 efbe4786 0fc19dc6 240ca1cc 2de92c6f 4a7484aa 5cb0a9dc 76f988da "
       ++ "983e5152 a831c66d b00327c8 bf597fc7 c6e00bf3 d5a79147 06ca6351 14292967 "
       ++ "27b70a85 2e1b2138 4d2c6dfc 53380d13 650a7354 766a0abb 81c2c92e 92722c85 "
       ++ "a2bfe8a1 a81a664b c24b8b70 c76c51a3 d192e819 d6990624 f40e3585 106aa070 "
       ++ "19a4c116 1e376c08 2748774c 34b0bcb5 391c0cb3 4ed8aa4a 5b9cca4f 682e6ff3 "
       ++ "748f82ee 78a5636f 84c87814 8cc70208 90befffa a4506ceb bef9a3f7 c67178f2")%string).

(** Section 5.3.3: the initial hash value. *)
Definition H_initial : regs :=
  Eval vm_compute in
    match table [] (lit ("6a09e667 bb67ae85 3c6ef372 a54ff53a "
                         ++ "510e527f 9b05688c 1f83d9ab 5be0cd19")%string) with
    | [a; b; c; d; e; f; g; h] => Regs a b c d e f g h
    | _ => Regs 0 0 0 0 0 0 0 0
    end.

(** Section 5.1.1: the message of [l] bits is followed by the bit 1, by
    [k] zero bits, [k] the smallest non-negative solution of
    [l + 1 + k = 448 mod 512], and by [l] as a 64-bit number.  In octets:
    the octet 128 carries the bit 1 and seven of the zero bits. *)
Definition zero_bits (l : nat) : nat :=
  match List.find (fun k => Nat.eqb ((l + 1 + k) mod 512) 448) (seq 0 512) with
  | Some k => k
  | None => O
  end.

Definition length64 (l : N) : list N :=
  map (fun i => (l / 256 ^ i) mod 256) [7; 6; 5; 4; 3; 2; 1; 0].

Definition padded (msg : list N) : list N :=
  msg ++ [128] ++ repeat 0 ((zero_bits (8 * length msg) - 7) / 8)
      ++ length64 ((8 * N.of_nat (length msg)) mod 2 ^ 64).

(** Section 5.2.1: word [t] of message block [i] (both counted from 0),
    four octets with the most significant first. *)
Definition M (p : list N) (i t : nat) : N :=
  let o k := nth (64 * i + 4 * t + k) p 0 in
  o 0%nat * 2 ^ 24 + o 1%nat * 2 ^ 16 + o 2%nat * 2 ^ 8 + o 3%nat.

(** Section 6.2.2, step 1: the message schedule.  [W_upto n] is [W] on
    the indices below [n]. *)
Fixpoint W_upto (n : nat) (m : nat -> N) (t : nat) : N :=
  match n with
  | O => 0
  | S n' =>
      if (t <? 16)%nat then m t
      else add32 (add32 (add32 (sigma1 (W_upto n' m (t - 2)))
                               (W_upto n' m (t - 7)))
                        (sigma0 (W_upto n' m (t - 15))))
                 (W_upto n' m (t - 16))
  end.

Definition W (m : nat -> N) (t : nat) : N := W_upto (S t) m t.

(** Steps 2 and 3: the eight working variables after [t] rounds. *)
Definition step (v : regs) (k w : N) : regs :=
  let T1 := add32 (add32 (add32 (add32 (rh v) (Sigma1 (re v)))
                                (Ch (re v) (rf v) (rg v))) k) w in
  let T2 := add32 (Sigma0 (ra v)) (Maj (ra v) (rb v) (rc v)) in
  Regs (add32 T1 T2) (ra v) (rb v) (rc v) (add32 (rd v) T1) (re v) (rf v) (rg v).

Fixpoint working (h : regs) (m : nat -> N) (t : nat) : regs :=
  match t with
  | O => h
  | S t' => step (working h m t') (nth t' K 0) (W m t')
  end.

(** Step 4: the next intermediate hash value. *)
Definition next_hash (h : regs) (m : nat -> N) : regs :=
  let v := working h m 64 in
  Regs (add32 (ra v) (ra h)) (add32 (rb v) (rb h)) (add32 (rc v) (rc h))
       (add32 (rd v) (rd h)) (add32 (re v) (re h)) (add32 (rf v) (rf h))
       (add32 (rg v) (rg h)) (add32 (rh v) (rh h)).

(** The hash value after [i] blocks of the padded message. *)
Fixpoint H (p : list N) (i : nat) : regs :=
  match i with
  | O => H_initial
  | S j => next_hash (H p j) (M p j)
  end.

Definition word_octets (x : N) : list N :=
  map (fun i => (x / 256 ^ i) mod 256) [3; 2; 1; 0].

(** The message digest: the eight words of the last hash value. *)
Definition sha256 (msg : list N) : list N :=
  let p := padded msg in
  let h := H p (length p / 64) in
  word_octets (ra h) ++ word_octets (rb h) ++ word_octets (rc h)
    ++ word_octets (rd h) ++ word_octets (re h) ++ word_octets (rf h)
    ++ word_octets (rg h) ++ word_octets (rh h).

(** Reading a hexadecimal string: two digits for an octet. *)
Fixpoint unhex (s : str) : option (list N) :=
  match s with
  | [] => Some []
  | a :: b :: t =>
      match hex_value a, hex_value b, unhex t with
      | Some x, Some y, Some r => Some (16 * x + y :: r)
      | _, _, _ => None
      end
  | [_] => None
  end.

End Fips180.

(* ================================================================== *)
(** ** The world of one run, and the program's monad *)

(** Why lines 47-48 can fail: [open] raises FileNotFoundError,
    IsADirectoryError, PermissionError or another OSError, and
    [readlines] raises UnicodeDecodeError on bytes that the strict
    decoder of a text file refuses (or an OSError of its own). *)
Inductive read_error : Type :=
| NoSuchFile
| IsADirectory
| PermissionDenied
| OtherOSError
| Undecodable.

Definition exn_of_read_error (e : read_error) : exn :=
  match e with
  | NoSuchFile => FileNotFoundError
  | IsADirectory => IsADirectoryError
  | PermissionDenied => PermissionError
  | OtherOSError => OSError
  | Undecodable => UnicodeDecodeError
  end.

(** The text a strict decoder returns holds Unicode scalar values only:
    no surrogate, nothing above U+10FFFF. *)
Definition strict_text (text : option (list str)) : bool :=
  match text with
  | Some ls => forallb (forallb Utf8.scalar) ls
  | None => true
  end.

(** What a run can observe and change.  [wordlist_txt] is what lines
    47-48 read: the lines of the file, a strictly decoded text, or [None]
    when [open] or [readlines] raises, and then [wordlist_error] says
    what.  [entropy] lists what the sampling calls of the [random] module
    deliver, call after call, and [drawn] counts the calls made so far.
    [stdout] holds the lines printed so far. *)
Record world : Type := World {
  wordlist_txt : option (list str);
  wordlist_error : read_error;
  wordlist_strict : strict_text wordlist_txt = true;
  entropy : nat -> Z;
  drawn : nat;
  stdout : list str
}.

Definition M (A : Type) : Type := world -> result A * world.

Definition ret {A} (a : A) : M A := fun w => (Ok a, w).

Definition raise {A} (e : exn) : M A := fun w => (Raise e, w).

Definition bind {A B} (m : M A) (k : A -> M B) : M B :=
  fun w => match m w with
           | (Ok a, w') => k a w'
           | (Raise e, w') => (Raise e, w')
           end.

Definition lift {A} (r : result A) : M A := fun w => (r, w).

Notation "x <- m ;; k" := (bind m (fun x => k))
  (at level 61, m at next level, right associativity).

(** [with open("wordlist.txt", "r") as wl: wl.readlines()] *)
Definition readlines : M (list str) :=
  fun w => match wordlist_txt w with
           | Some ls => (Ok ls, w)
           | None => (Raise (exn_of_read_error (wordlist_error w)), w)
           end.

(** [print(s)]: one more line on standard output. *)
Definition print (s : str) : M unit :=
  fun w => (Ok tt, World (wordlist_txt w) (wordlist_error w) (wordlist_strict w)
                         (entropy w) (drawn w) (stdout w ++ [s])).

(** The [random] module, seen through the sampling calls the program
    makes: [floor(random() * n)] in [choices], [_randbelow(n)] in [choice]
    and [randint].  A call returns an index below [n]; the model takes it
    from the next entry of [entropy] and counts one call.  How many words
    of the Mersenne Twister a call uses is inside the library and not
    modelled: [random()] takes two, [_randbelow] redraws until a value
    is below [n], and is taken to return. *)
Module Random.

Definition reduce (v n : Z) : Z := if (0 <? n)%Z then (v mod n)%Z else 0%Z.

Definition advance (w : world) : world :=
  World (wordlist_txt w) (wordlist_error w) (wordlist_strict w)
        (entropy w) (S (drawn w)) (stdout w).

Definition below (n : Z) : M Z :=
  fun w => (Ok (reduce (entropy w (drawn w)) n), advance w).

(** [random.choice(seq)] *)
Definition choice {A} (seq : list A) : M A :=
  if (len seq =? 0)%Z then raise IndexError
  else i <- below (len seq) ;; lift (getitem seq i).

(** [random.choices(population, k=k)]:
    [[population[floor(random() * n)] for i in repeat(None, k)]] *)
Fixpoint choices {A} (population : list A) (k : nat) : M (list A) :=
  match k with
  | O => ret []
  | S k' => i <- below (len population) ;;
            x <- lift (getitem population i) ;;
            xs <- choices population k' ;;
            ret (x :: xs)
  end.

(** [random.randint(a, b)] is [randrange(a, b + 1)] *)
Definition randint (a b : Z) : M Z :=
  let width := (b + 1 - a)%Z in
  if (0 <? width)%Z then i <- below width ;; ret (a + i)%Z
  else raise ValueError.

End Random.

(** The world after [k] sampling calls, and the index that call number
    [j] from [w] gives among [n] items. *)
Definition after (k : nat) (w : world) : world :=
  World (wordlist_txt w) (wordlist_error w) (wordlist_strict w)
        (entropy w) (drawn w + k) (stdout w).

Definition drawn_index (w : world) (j : nat) (n : Z) : Z :=
  Random.reduce (entropy w (drawn w + j)%nat) n.

(* ================================================================== *)
(** ** src/pwgen.py *)

Local Open Scope Z_scope.

(** line 40: acceptable list of chars that can be capitalised *)
Definition capl : str := lit "acdefghjklmnpqrstuvwxyz".

(** line 43: list of acceptable symbols *)
Definition symbols : str := lit "=-!$%^&*(){}[]".

(** lines 47-51: read the word list, pick 4 random words, strip them *)
Definition sample : M (list str) :=
  wlist <- readlines ;;
  picked <- Random.choices wlist 4 ;;
  ret (map rstrip picked).

(** line 54: [" ".join(words)] *)
Definition phrase_of (words : list str) : str := join (lit " ") words.

(** line 57: [hashlib.sha256(phrase.encode()).hexdigest()] *)
Definition hash_phrase (phrase : str) : result str :=
  rbind (Utf8.encode phrase) (fun bs => Ok (Sha256.hexdigest bs)).

(** line 60: ["".join(random.choices(hphrase, k=15))] *)
Definition select (hphrase : str) : M str :=
  cs <- Random.choices hphrase 15 ;;
  ret (join [] (map (fun c => [c]) cs)).

(** line 64: [[ch.index(c) for c in ch if c in capl]] *)
Definition positions (ch : str) : result (list Z) :=
  rmap (index ch) (filter (contains capl) ch).

(** lines 64-65: the index of the letter to capitalise *)
Definition capital_index (ch : str) : M Z :=
  pos <- lift (positions ch) ;;
  Random.choice pos.

(** lines 69-72: split the string at the chosen letter, capitalise it
    and put the string together again *)
Definition capitalise (ch : str) (pi : Z) : result str :=
  let left := if pi >? 0 then slice_to ch (pi - 1) else [] in
  rbind (getitem ch pi) (fun c0 =>
  let c := upper c0 in
  let right := if pi <? len ch - 1 then slice_from ch (pi + 1) else [] in
  Ok (left ++ [c] ++ right)).

(** line 76: [random.randint(0, len(pw) - 1)] *)
Definition symbol_index (pw : str) : M Z := Random.randint 0 (len pw - 1).

(** lines 79-85: the slices around the position and the symbol between *)
Definition insert (pw : str) (pi : Z) (symbol : char) : str :=
  let left := if pi >? 0 then slice_to pw pi else [] in
  let right := if pi <? len pw - 1 then slice_from pw pi else [] in
  left ++ [symbol] ++ right.

(** line 88: [[pw[i:i + 4] for i in range(0, len(pw), 4)]] *)
Definition blocks4 (pw : str) : list str :=
  map (fun i => slice pw i (i + 4)) (range 0 (len pw) 4).

(** lines 88-91: the blocks joined by a space *)
Definition format (pw : str) : str := join (lit " ") (blocks4 pw).

(** The local variables of [pwgen()] when it reaches its end. *)
Record locals : Type := Locals {
  l_words : list str;
  l_hphrase : str;
  l_ch : str;
  l_pi : Z;
  l_pw : str;
  l_pi' : Z;
  l_symbol : char;
  l_final : str
}.

(** lines 47-94, the body of [pwgen()], with its local variables as the
    result *)
Definition pwgen_body : M locals :=
  words <- sample ;;
  hphrase <- lift (hash_phrase (phrase_of words)) ;;
  ch <- select hphrase ;;
  pi <- capital_index ch ;;
  pw <- lift (capitalise ch pi) ;;
  pi' <- symbol_index pw ;;
  symbol <- Random.choice symbols ;;
  let final := insert pw pi' symbol in
  _ <- print (format final) ;;
  ret (Locals words hphrase ch pi pw pi' symbol final).

(** [pwgen()] returns [None]. *)
Definition pwgen : M unit := _ <- pwgen_body ;; ret tt.

(** The reader's side of the display format: dropping the separator
    that follows every block of four characters. *)
Fixpoint strip_from (k : nat) (op : str) : str :=
  match op with
  | [] => []
  | c :: t => match k with
              | O => strip_from 4 t
              | S k' => c :: strip_from k' t
              end
  end.

Definition strip_separators (op : str) : str := strip_from 4 op.

(** The blocks, by position: block [k] is the four characters from
    offset [4 * k], fewer at the end of the string. *)
Definition chunks (m : nat) (s : str) : list str :=
  map (fun k => firstn 4 (skipn (4 * k) s)) (seq 0 m).

(** A world whose file holds the given lines and whose generator
    delivers the listed values, then zeros.  Lines that no strict
    decoding returns stand for a file that cannot be decoded. *)
Definition text_of (lines : list str) : option (list str) :=
  if forallb (forallb Utf8.scalar) lines then Some lines else None.

Definition text_of_strict (lines : list str) :
  strict_text (text_of lines) = true :=
  match forallb (forallb Utf8.scalar) lines as b
        return forallb (forallb Utf8.scalar) lines = b ->
               strict_text (if b then Some lines else None) = true
  with
  | true => fun H => H
  | false => fun _ => eq_refl
  end eq_refl.

Definition world_of (lines : list str) (vs : list Z) : world :=
  World (text_of lines) Undecodable (text_of_strict lines)
        (fun k => nth k vs 0) 0 [].

(** A world whose file cannot be read. *)
Definition world_without_file (e : read_error) : world :=
  World None e eq_refl (fun _ => 0) 0 [].

(** A word list as [readlines()] returns it, each line with its newline,
    and the draws that pick the phrase "apple delta echo banana". *)
Definition line (s : string) : str := lit s ++ [10%N].

Definition fruit : list str :=
  map line ["apple"; "banana"; "cherry"; "delta"; "echo"]%string.

Definition pick_phrase : list Z := [0; 3; 4; 1].

(** Draws that select the first fifteen characters of the digest,
    "e31bfcd86f94613". *)
Definition first15 : list Z := map Z.of_nat (seq 0 15).

(** Three runs on that selection.  The last three draws are the choice
    among the candidate positions [0; 4; 5; 6; 4], the insertion index
    and the choice of the symbol. *)
Definition run16 : world := world_of fruit (pick_phrase ++ first15 ++ [0; 2; 2]).
Definition run15 : world := world_of fruit (pick_phrase ++ first15 ++ [3; 2; 2]).
Definition run14 : world := world_of fruit (pick_phrase ++ first15 ++ [3; 13; 2]).

(** A run whose selection is fourteen times the digest's '3' (index 1)
    and then its 'a' (index 33), with the symbol at the last index. *)
Definition run_capital_last : world :=
  world_of fruit (pick_phrase ++ repeat 1 14 ++ [33] ++ [0; 13; 2]).

(** A run whose selection is fifteen times the digest's 'a'. *)
Definition run_all_a : world :=
  world_of fruit (pick_phrase ++ repeat 33 15 ++ [7; 2; 2]).

(** A run whose selection is fifteen times the digest's '3'. *)
Definition run_no_letter : world :=
  world_of fruit (pick_phrase ++ repeat 1 15).

(** A word list whose words take two, three, four and one octets in
    UTF-8 (U+00E9, U+20AC, U+1F600 and the letter z), and a run that
    samples them in order. *)
Definition glyphs : list str :=
  [[0xE9; 10]; [0x20AC; 10]; [0x1F600; 10]; [122; 10]]%N.

Definition run_glyphs : world := world_of glyphs [0; 1; 2; 3].

(** The letters of [capl] that a hex digest holds, and their capitals. *)
Definition hex_letters : str := lit "acdef".

Definition capitals : str := lit "ACDEF".

(** Two worlds that agree on the generator and on standard output; they
    may differ in the word-list file. *)
Definition same_rng (w1 w2 : world) : Prop :=
  entropy w1 = entropy w2 /\ drawn w1 = drawn w2 /\ stdout w1 = stdout w2.

(** A computation whose result and whose effect on generator and output
    do not depend on the word-list file. *)
Definition file_blind {A} (m : M A) : Prop :=
  forall w1 w2, same_rng w1 w2 ->
    fst (m w1) = fst (m w2) /\ same_rng (snd (m w1)) (snd (m w2)).

(* ================================================================== *)
(** * Facts about the built-ins *)

Section Slices.

Context {A : Type}.
Implicit Types s : list A.

Lemma len_nonneg s : 0 <= len s.
Proof. unfold len. lia. Qed.

Lemma len_app s t : len (s ++ t) = len s + len t.
Proof. unfold len. rewrite length_app. lia. Qed.

Lemma slice_to_firstn s j :
  0 <= j -> slice_to s j = firstn (Z.to_nat j) s.
Proof.
  intros Hj. unfold slice_to, slice, clamp, len. simpl (0 <? 0).
  destruct (j <? 0) eqn:E; [apply Z.ltb_lt in E; lia|].
  rewrite (Z.min_l 0) by lia. simpl skipn. rewrite Z.sub_0_r.
  destruct (Z.le_gt_cases j (Z.of_nat (length s))) as [H|H].
  - now rewrite Z.min_l by lia.
  - rewrite Z.min_r by lia. rewrite Nat2Z.id.
    rewrite firstn_all. symmetry. apply firstn_all2. lia.
Qed.

Lemma slice_from_skipn s i :
  0 <= i -> slice_from s i = skipn (Z.to_nat i) s.
Proof.
  intros Hi. unfold slice_from, slice, clamp, len.
  destruct (i <? 0) eqn:E; [apply Z.ltb_lt in E; lia|].
  destruct (Z.of_nat (length s) <? 0) eqn:E'; [apply Z.ltb_lt in E'; lia|].
  rewrite Z.min_id.
  destruct (Z.le_gt_cases i (Z.of_nat (length s))) as [H|H].
  - rewrite Z.min_l by lia. apply firstn_all2. rewrite length_skipn. lia.
  - rewrite Z.min_r by lia. rewrite Z.sub_diag, Nat2Z.id. simpl.
    symmetry. apply skipn_all2. lia.
Qed.

Lemma slice_firstn_skipn s i j :
  0 <= i <= j ->
  slice s i j = firstn (Z.to_nat (j - i)) (skipn (Z.to_nat i) s).
Proof.
  intros Hij. unfold slice, clamp, len.
  destruct (i <? 0) eqn:E; [apply Z.ltb_lt in E; lia|].
  destruct (j <? 0) eqn:E'; [apply Z.ltb_lt in E'; lia|].
  destruct (Z.le_gt_cases i (Z.of_nat (length s))) as [H|H].
  - rewrite (Z.min_l i) by lia.
    destruct (Z.le_gt_cases j (Z.of_nat (length s))) as [H'|H'].
    + now rewrite Z.min_l by lia.
    + rewrite Z.min_r by lia.
      rewrite (firstn_all2 (n := Z.to_nat (Z.of_nat (length s) - i)))
        by (rewrite length_skipn; lia).
      rewrite (firstn_all2 (n := Z.to_nat (j - i)))
        by (rewrite length_skipn; lia).
      reflexivity.
  - rewrite !Z.min_r by lia. rewrite Z.sub_diag. simpl.
    rewrite (skipn_all2 s) by lia. now rewrite firstn_nil.
Qed.

Lemma getitem_nth s i x :
  0 <= i -> nth_error s (Z.to_nat i) = Some x -> getitem s i = Ok x.
Proof.
  intros Hi Hx. unfold getitem.
  destruct (i <? 0) eqn:E; [apply Z.ltb_lt in E; lia|].
  rewrite E. now rewrite Hx.
Qed.

Lemma getitem_Ok s i x :
  0 <= i -> getitem s i = Ok x ->
  i < len s /\ nth_error s (Z.to_nat i) = Some x.
Proof.
  intros Hi. unfold getitem.
  destruct (i <? 0) eqn:E; [apply Z.ltb_lt in E; lia|].
  rewrite E. destruct (nth_error s (Z.to_nat i)) eqn:Hn; [|discriminate].
  intros [= ->]. split; [|reflexivity].
  assert (Z.to_nat i < length s)%nat by (apply nth_error_Some; congruence).
  unfold len. lia.
Qed.

Lemma getitem_in_range s i :
  0 <= i < len s -> exists x, getitem s i = Ok x /\ nth_error s (Z.to_nat i) = Some x.
Proof.
  intros Hi. unfold len in Hi.
  destruct (nth_error s (Z.to_nat i)) eqn:Hn.
  - exists a. split; [apply getitem_nth; [lia|assumption]|reflexivity].
  - apply nth_error_None in Hn. lia.
Qed.

End Slices.

(* ================================================================== *)
(** * Facts about the monad and the generator *)

Section Monad.

Context {A B : Type}.

Lemma bind_step (m : M A) (k : A -> M B) w a w1 :
  m w = (Ok a, w1) -> (x <- m ;; k x) w = k a w1.
Proof. intros H. unfold bind. now rewrite H. Qed.

Lemma bind_raise (m : M A) (k : A -> M B) w e w1 :
  m w = (Raise e, w1) -> (x <- m ;; k x) w = (Raise e, w1).
Proof. intros H. unfold bind. now rewrite H. Qed.

Lemma bind_Ok (m : M A) (k : A -> M B) w b w' :
  (x <- m ;; k x) w = (Ok b, w') ->
  exists a w1, m w = (Ok a, w1) /\ k a w1 = (Ok b, w').
Proof.
  unfold bind. destruct (m w) as [[a|e] w1]; [|discriminate].
  intros H. now exists a, w1.
Qed.

End Monad.

Lemma lift_Ok {A} (r : result A) w a w' :
  lift r w = (Ok a, w') -> r = Ok a /\ w' = w.
Proof. unfold lift. intros [= -> ->]. now split. Qed.

Lemma after_0 w : after 0 w = w.
Proof. destruct w. unfold after. simpl. now rewrite Nat.add_0_r. Qed.

Lemma after_advance k w : after k (Random.advance w) = after (S k) w.
Proof. unfold after, Random.advance. simpl. f_equal. lia. Qed.

Lemma advance_after w : Random.advance w = after 1 w.
Proof. unfold after, Random.advance. f_equal. lia. Qed.

Lemma after_after j k w : after k (after j w) = after (j + k) w.
Proof. unfold after. simpl. f_equal. lia. Qed.

Lemma reduce_range v n : 0 < n -> 0 <= Random.reduce v n < n.
Proof.
  intros Hn. unfold Random.reduce.
  destruct (0 <? n) eqn:E; [|apply Z.ltb_ge in E; lia].
  apply Z.mod_pos_bound. lia.
Qed.

Lemma reduce_small v n : 0 <= v < n -> Random.reduce v n = v.
Proof.
  intros Hv. unfold Random.reduce.
  destruct (0 <? n) eqn:E; [|apply Z.ltb_ge in E; lia].
  apply Z.mod_small. lia.
Qed.

Lemma drawn_index_range w j n : 0 < n -> 0 <= drawn_index w j n < n.
Proof. apply reduce_range. Qed.

Lemma below_eq n w : Random.below n w = (Ok (drawn_index w 0 n), after 1 w).
Proof.
  unfold Random.below, drawn_index. rewrite Nat.add_0_r.
  now rewrite advance_after.
Qed.

Section Choice.

Context {A : Type}.
Implicit Types seq : list A.

Lemma choice_empty w : Random.choice (@nil A) w = (Raise IndexError, w).
Proof. reflexivity. Qed.

Lemma choice_eq seq w :
  seq <> [] ->
  exists x, nth_error seq (Z.to_nat (drawn_index w 0 (len seq))) = Some x
            /\ Random.choice seq w = (Ok x, after 1 w).
Proof.
  intros Hne. unfold Random.choice.
  assert (Hlen : 0 < len seq).
  { unfold len. destruct seq; [congruence|simpl; lia]. }
  destruct (len seq =? 0) eqn:E; [apply Z.eqb_eq in E; lia|].
  pose proof (drawn_index_range w 0 _ Hlen) as Hr.
  destruct (getitem_in_range seq _ Hr) as (x & Hg & Hn).
  exists x. split; [assumption|].
  rewrite (bind_step _ _ _ _ _ (below_eq _ w)). unfold lift. now rewrite Hg.
Qed.

Lemma choice_Ok seq w x w' :
  Random.choice seq w = (Ok x, w') ->
  seq <> [] /\ w' = after 1 w
  /\ nth_error seq (Z.to_nat (drawn_index w 0 (len seq))) = Some x.
Proof.
  intros H. destruct seq as [|a seq].
  - rewrite choice_empty in H. discriminate.
  - assert (Hne : a :: seq <> []) by discriminate.
    destruct (choice_eq (a :: seq) w Hne) as (y & Hn & Hc).
    rewrite Hc in H. injection H as -> <-. now repeat split.
Qed.

Lemma choices_eq (population : list A) k : forall w,
  population <> [] ->
  exists xs,
    Random.choices population k w = (Ok xs, after k w)
    /\ length xs = k
    /\ forall j, (j < k)%nat ->
         nth_error xs j
         = nth_error population (Z.to_nat (drawn_index w j (len population))).
Proof.
  induction k as [|k IH]; intros w Hne.
  - exists []. simpl. unfold ret. rewrite after_0.
    repeat split. intros j Hj. lia.
  - assert (Hlen : 0 < len population).
    { unfold len. destruct population; [congruence|simpl; lia]. }
    pose proof (drawn_index_range w 0 _ Hlen) as Hr.
    destruct (getitem_in_range population _ Hr) as (x & Hg & Hn).
    destruct (IH (after 1 w) Hne) as (xs & Hc & Hl & Hnth).
    exists (x :: xs). simpl. split; [|split].
    + rewrite (bind_step _ _ _ _ _ (below_eq _ w)).
      unfold bind at 1, lift. rewrite Hg.
      unfold bind at 1. rewrite Hc. unfold ret.
      rewrite after_after. reflexivity.
    + now rewrite Hl.
    + intros [|j] Hj; simpl.
      * now rewrite Hn.
      * rewrite Hnth by lia. unfold drawn_index, after. simpl.
        do 4 f_equal. lia.
Qed.

Lemma choices_empty k w :
  Random.choices (@nil A) (S k) w = (Raise IndexError, after 1 w).
Proof.
  simpl. rewrite (bind_step _ _ _ _ _ (below_eq _ w)). reflexivity.
Qed.

End Choice.

Lemma randint_eq n w :
  0 < n -> Random.randint 0 (n - 1) w = (Ok (drawn_index w 0 n), after 1 w).
Proof.
  intros Hn. unfold Random.randint.
  replace (n - 1 + 1 - 0) with n by lia.
  destruct (0 <? n) eqn:E; [|apply Z.ltb_ge in E; lia].
  rewrite (bind_step _ _ _ _ _ (below_eq _ w)). reflexivity.
Qed.

(* ================================================================== *)
(** * Facts about the stages of [pwgen] *)

Lemma rmap_Ok {A B} (f : A -> result B) l ys :
  rmap f l = Ok ys -> Forall2 (fun x y => f x = Ok y) l ys.
Proof.
  revert ys. induction l as [|x t IH]; simpl; intros ys H.
  - injection H as <-. constructor.
  - destruct (f x) as [y|e] eqn:Hx; [|discriminate]. simpl in H.
    destruct (rmap f t) as [ys'|e]; [|discriminate]. simpl in H.
    injection H as <-. constructor; [assumption|now apply IH].
Qed.

Lemma rmap_total {A B} (f : A -> result B) l :
  (forall x, In x l -> exists y, f x = Ok y) -> exists ys, rmap f l = Ok ys.
Proof.
  induction l as [|x t IH]; intros H; simpl.
  - now exists [].
  - destruct (H x (or_introl eq_refl)) as [y Hy]. rewrite Hy. simpl.
    destruct IH as [ys Hys]; [intros z Hz; apply H; now right|].
    rewrite Hys. simpl. now exists (y :: ys).
Qed.

Lemma Forall2_In_r {A B} (R : A -> B -> Prop) l ys y :
  Forall2 R l ys -> In y ys -> exists x, In x l /\ R x y.
Proof.
  induction 1 as [|x y' l ys Hxy _ IH]; simpl; [easy|].
  intros [<-|Hy].
  - exists x. now split; [left|].
  - destruct (IH Hy) as (x' & Hin & HR). exists x'. now split; [right|].
Qed.

Lemma Forall2_In_l {A B} (R : A -> B -> Prop) l ys x :
  Forall2 R l ys -> In x l -> exists y, In y ys /\ R x y.
Proof.
  induction 1 as [|x' y l ys Hxy _ IH]; simpl; [easy|].
  intros [<-|Hx].
  - exists y. now split; [left|].
  - destruct (IH Hx) as (y' & Hin & HR). exists y'. now split; [right|].
Qed.

Lemma Forall2_length_eq {A B} (R : A -> B -> Prop) l ys :
  Forall2 R l ys -> length l = length ys.
Proof. induction 1; simpl; congruence. Qed.

Lemma find_Some s c k :
  find s c = Some k ->
  nth_error s k = Some c /\ forall j, (j < k)%nat -> nth_error s j <> Some c.
Proof.
  revert k. induction s as [|x t IH]; simpl; intros k; [discriminate|].
  destruct (N.eqb x c) eqn:E.
  - intros [= <-]. apply N.eqb_eq in E. subst x.
    split; [reflexivity|]. intros j Hj. lia.
  - destruct (find t c) as [k'|]; [|discriminate]. intros [= <-].
    destruct (IH k' eq_refl) as [H1 H2]. split; [exact H1|].
    intros [|j] Hj; simpl.
    + intros [= ->]. rewrite N.eqb_refl in E. discriminate.
    + apply H2. lia.
Qed.

Lemma find_In s c : In c s -> exists k, find s c = Some k.
Proof.
  induction s as [|x t IH]; simpl; [easy|]. intros H.
  destruct (N.eqb x c) eqn:E; [now exists O|].
  destruct H as [->|H]; [rewrite N.eqb_refl in E; discriminate|].
  destruct (IH H) as [k Hk]. rewrite Hk. now exists (S k).
Qed.

Lemma find_first s c k :
  nth_error s k = Some c -> (forall j, (j < k)%nat -> nth_error s j <> Some c) ->
  find s c = Some k.
Proof.
  intros Hk Hmin. destruct (find_In s c) as [k' Hk'].
  { eapply nth_error_In; eassumption. }
  destruct (find_Some s c k' Hk') as [H1 H2].
  destruct (Nat.lt_trichotomy k k') as [H|[H|H]].
  - exfalso. exact (H2 k H Hk).
  - now subst.
  - exfalso. exact (Hmin k' H H1).
Qed.

(** An index of [ch] is a candidate when its character is in [capl] and
    does not occur at a lower index. *)
Lemma positions_In ch pos p :
  positions ch = Ok pos -> In p pos ->
  exists c, contains capl c = true /\ 0 <= p < len ch
            /\ nth_error ch (Z.to_nat p) = Some c
            /\ forall j, (j < Z.to_nat p)%nat -> nth_error ch j <> Some c.
Proof.
  intros Hpos Hp. apply rmap_Ok in Hpos.
  destruct (Forall2_In_r _ _ _ _ Hpos Hp) as (c & Hc & Hi).
  apply filter_In in Hc. destruct Hc as [_ Hcap].
  unfold index in Hi. destruct (find ch c) as [k|] eqn:Hf; [|discriminate].
  injection Hi as <-. destruct (find_Some _ _ _ Hf) as [H1 H2].
  exists c. rewrite Nat2Z.id. repeat split; try assumption; try lia.
  assert (k < length ch)%nat by (apply nth_error_Some; congruence).
  unfold len. lia.
Qed.

Lemma positions_complete ch pos c k :
  positions ch = Ok pos -> contains capl c = true ->
  nth_error ch k = Some c ->
  (forall j, (j < k)%nat -> nth_error ch j <> Some c) ->
  In (Z.of_nat k) pos.
Proof.
  intros Hpos Hcap Hk Hmin. apply rmap_Ok in Hpos.
  assert (Hin : In c (filter (contains capl) ch)).
  { apply filter_In. split; [eapply nth_error_In; eassumption|assumption]. }
  destruct (Forall2_In_l _ _ _ _ Hpos Hin) as (p & Hp & Hi).
  unfold index in Hi. rewrite (find_first _ _ _ Hk Hmin) in Hi.
  injection Hi as <-. assumption.
Qed.

Lemma positions_total ch :
  exists pos, positions ch = Ok pos
              /\ length pos = length (filter (contains capl) ch).
Proof.
  destruct (rmap_total (index ch) (filter (contains capl) ch)) as [pos Hpos].
  - intros c Hc. apply filter_In in Hc. destruct Hc as [Hc _].
    destruct (find_In _ _ Hc) as [k Hk]. unfold index. rewrite Hk. eauto.
  - exists pos. split; [assumption|].
    symmetry. eapply Forall2_length_eq. apply rmap_Ok. eassumption.
Qed.

Lemma capitalise_eq ch pi c0 :
  0 <= pi -> nth_error ch (Z.to_nat pi) = Some c0 ->
  capitalise ch pi
  = Ok ((if pi =? 0 then [] else firstn (Z.to_nat (pi - 1)) ch)
        ++ [upper c0] ++ skipn (Z.to_nat (pi + 1)) ch).
Proof.
  intros Hpi Hn. unfold capitalise.
  rewrite (getitem_nth ch pi c0 Hpi Hn). simpl rbind.
  assert (Hleft : (if pi >? 0 then slice_to ch (pi - 1) else [])
                  = if pi =? 0 then [] else firstn (Z.to_nat (pi - 1)) ch).
  { destruct (pi =? 0) eqn:E.
    - apply Z.eqb_eq in E. now subst.
    - apply Z.eqb_neq in E. destruct (pi >? 0) eqn:E'.
      + apply slice_to_firstn. lia.
      + rewrite Z.gtb_ltb in E'. apply Z.ltb_ge in E'. lia. }
  assert (Hright : (if pi <? len ch - 1 then slice_from ch (pi + 1) else [])
                   = skipn (Z.to_nat (pi + 1)) ch).
  { destruct (pi <? len ch - 1) eqn:E.
    - apply slice_from_skipn. lia.
    - apply Z.ltb_ge in E. symmetry. apply skipn_all2. unfold len in E. lia. }
  now rewrite Hleft, Hright.
Qed.

Lemma capitalise_len ch pi pw :
  0 <= pi -> capitalise ch pi = Ok pw ->
  pi < len ch /\ len pw = len ch - (if pi >? 0 then 1 else 0).
Proof.
  intros Hpi H.
  assert (Hg : exists c0, getitem ch pi = Ok c0).
  { unfold capitalise in H. destruct (getitem ch pi) as [c0|e]; [eauto|discriminate]. }
  destruct Hg as [c0 Hg]. destruct (getitem_Ok ch pi c0 Hpi Hg) as [Hlt Hn].
  rewrite (capitalise_eq ch pi c0 Hpi Hn) in H. injection H as <-.
  split; [assumption|]. unfold len in *. rewrite !length_app.
  cbn [length]. rewrite length_skipn.
  destruct (pi =? 0) eqn:E.
  - apply Z.eqb_eq in E. subst. simpl. lia.
  - apply Z.eqb_neq in E. rewrite length_firstn.
    destruct (pi >? 0) eqn:E'; [lia|].
    rewrite Z.gtb_ltb in E'. apply Z.ltb_ge in E'. lia.
Qed.

Lemma insert_eq pw i symbol :
  0 <= i ->
  insert pw i symbol
  = firstn (Z.to_nat i) pw ++ [symbol]
    ++ (if i <? len pw - 1 then skipn (Z.to_nat i) pw else []).
Proof.
  intros Hi. unfold insert.
  assert (Hleft : (if i >? 0 then slice_to pw i else [])
                  = firstn (Z.to_nat i) pw).
  { destruct (i >? 0) eqn:E.
    - now apply slice_to_firstn.
    - rewrite Z.gtb_ltb in E. apply Z.ltb_ge in E.
      replace i with 0 by lia. reflexivity. }
  rewrite Hleft. destruct (i <? len pw - 1); [|reflexivity].
  now rewrite slice_from_skipn.
Qed.

Lemma insert_len pw i symbol :
  0 <= i <= len pw - 1 ->
  len (insert pw i symbol) = len pw + (if i <? len pw - 1 then 1 else 0).
Proof.
  intros Hi. rewrite insert_eq by lia. unfold len in *.
  rewrite !length_app, length_firstn. simpl.
  destruct (i <? Z.of_nat (length pw) - 1) eqn:E.
  - rewrite length_skipn. lia.
  - apply Z.ltb_ge in E. simpl. lia.
Qed.

Lemma join_singletons (cs : str) : join [] (map (fun c => [c]) cs) = cs.
Proof.
  induction cs as [|c [|d t] IH]; try reflexivity.
  change (c :: join [] (map (fun c => [c]) (d :: t)) = c :: d :: t).
  now rewrite IH.
Qed.

(* ================================================================== *)
(** * Runs of [pwgen] *)

Lemma pwgen_Ok w w' :
  pwgen w = (Ok tt, w') <-> exists t, pwgen_body w = (Ok t, w').
Proof.
  unfold pwgen. split.
  - intros H. apply bind_Ok in H. destruct H as (t & w1 & Hb & Hr).
    injection Hr as <-. now exists t.
  - intros [t Ht]. now rewrite (bind_step _ _ _ _ _ Ht).
Qed.

Lemma pwgen_Raise w e w' :
  pwgen_body w = (Raise e, w') -> pwgen w = (Raise e, w').
Proof. intros H. unfold pwgen. now rewrite (bind_raise _ _ _ _ _ H). Qed.

Lemma sample_Ok w words w1 :
  sample w = (Ok words, w1) ->
  exists wlist picked,
    wordlist_txt w = Some wlist /\ wlist <> [] /\ w1 = after 4 w
    /\ words = map rstrip picked /\ length picked = 4%nat
    /\ forall j, (j < 4)%nat ->
         nth_error picked j
         = nth_error wlist (Z.to_nat (drawn_index w j (len wlist))).
Proof.
  unfold sample. intros H. apply bind_Ok in H.
  destruct H as (wlist & w0 & Hr & H).
  unfold readlines in Hr. destruct (wordlist_txt w) as [ls|] eqn:Hw; [|discriminate].
  injection Hr as <- <-. rename ls into wlist.
  apply bind_Ok in H. destruct H as (picked & w2 & Hc & H).
  injection H as <- <-.
  destruct wlist as [|l0 wlist].
  { rewrite choices_empty in Hc. discriminate. }
  destruct (choices_eq (l0 :: wlist) 4 w) as (xs & Hx & Hl & Hn); [discriminate|].
  rewrite Hx in Hc. injection Hc as <- <-.
  exists (l0 :: wlist), xs. repeat split; try assumption. discriminate.
Qed.

Lemma select_Ok hphrase w ch w' :
  select hphrase w = (Ok ch, w') ->
  hphrase <> [] /\ w' = after 15 w /\ length ch = 15%nat
  /\ forall j, (j < 15)%nat ->
       nth_error ch j
       = nth_error hphrase (Z.to_nat (drawn_index w j (len hphrase))).
Proof.
  unfold select. intros H. apply bind_Ok in H.
  destruct H as (cs & w2 & Hc & H). injection H as <- <-.
  rewrite join_singletons.
  destruct hphrase as [|h0 hphrase].
  { rewrite choices_empty in Hc. discriminate. }
  destruct (choices_eq (h0 :: hphrase) 15 w) as (xs & Hx & Hl & Hn); [discriminate|].
  rewrite Hx in Hc. injection Hc as <- <-.
  repeat split; try assumption. discriminate.
Qed.

(** What the stages of a run that reached its end computed. *)
Lemma pwgen_body_Ok w t w' :
  pwgen_body w = (Ok t, w') ->
  exists pos,
    sample w = (Ok (l_words t), after 4 w)
    /\ hash_phrase (phrase_of (l_words t)) = Ok (l_hphrase t)
    /\ select (l_hphrase t) (after 4 w) = (Ok (l_ch t), after 19 w)
    /\ positions (l_ch t) = Ok pos
    /\ Random.choice pos (after 19 w) = (Ok (l_pi t), after 20 w)
    /\ capitalise (l_ch t) (l_pi t) = Ok (l_pw t)
    /\ symbol_index (l_pw t) (after 20 w) = (Ok (l_pi' t), after 21 w)
    /\ Random.choice symbols (after 21 w) = (Ok (l_symbol t), after 22 w)
    /\ l_final t = insert (l_pw t) (l_pi' t) (l_symbol t)
    /\ print (format (l_final t)) (after 22 w) = (Ok tt, w').
Proof.
  unfold pwgen_body. intros H.
  apply bind_Ok in H. destruct H as (words & w1 & Hs & H).
  apply bind_Ok in H. destruct H as (hphrase & w1' & Hh & H).
  apply lift_Ok in Hh. destruct Hh as [Hh ->].
  apply bind_Ok in H. destruct H as (ch & w2 & Hsel & H).
  apply bind_Ok in H. destruct H as (pi & w3 & Hci & H).
  apply bind_Ok in H. destruct H as (pw & w3' & Hcap & H).
  apply lift_Ok in Hcap. destruct Hcap as [Hcap ->].
  apply bind_Ok in H. destruct H as (pi' & w4 & Hsi & H).
  apply bind_Ok in H. destruct H as (symbol & w5 & Hsym & H).
  apply bind_Ok in H. destruct H as ([] & w6 & Hpr & H).
  injection H as <- <-. simpl.
  unfold capital_index in Hci. apply bind_Ok in Hci.
  destruct Hci as (pos & w2' & Hpos & Hci).
  apply lift_Ok in Hpos. destruct Hpos as [Hpos ->].
  destruct (sample_Ok _ _ _ Hs) as (wlist & picked & _ & _ & -> & _).
  destruct (select_Ok _ _ _ _ Hsel) as (_ & -> & _).
  destruct (choice_Ok _ _ _ _ Hci) as (_ & -> & _).
  assert (Hw4 : w4 = after 1 (after 1 (after 15 (after 4 w)))).
  { unfold symbol_index, Random.randint in Hsi.
    destruct (0 <? len pw - 1 + 1 - 0); [|discriminate].
    apply bind_Ok in Hsi. destruct Hsi as (i & w4' & Hb & Hr).
    rewrite below_eq in Hb. injection Hb as <- <-. now injection Hr as <- <-. }
  subst w4.
  destruct (choice_Ok _ _ _ _ Hsym) as (_ & -> & _).
  rewrite !after_after in *. simpl in *.
  exists pos. repeat split; assumption.
Qed.

(* ================================================================== *)
(** * The formatter *)

Lemma chunks_S m s :
  chunks (S m) s = firstn 4 s :: chunks m (skipn 4 s).
Proof.
  unfold chunks. change (seq 0 (S m)) with (O :: seq 1 m).
  rewrite <- seq_shift. cbn [map]. rewrite map_map.
  f_equal. apply map_ext. intros k. rewrite skipn_skipn.
  do 2 f_equal. lia.
Qed.

Lemma blocks4_chunks s : blocks4 s = chunks ((length s + 3) / 4) s.
Proof.
  unfold blocks4, range, chunks. rewrite map_map.
  replace (Z.to_nat ((len s - 0 + 4 - 1) / 4)) with ((length s + 3) / 4)%nat.
  - apply map_ext. intros k. rewrite slice_firstn_skipn by lia.
    f_equal; [f_equal; lia|f_equal; lia].
  - unfold len. rewrite Z2Nat.inj_div by lia.
    f_equal. lia.
Qed.

Lemma concat_chunks m : forall s,
  (length s <= 4 * m)%nat -> concat (chunks m s) = s.
Proof.
  induction m as [|m IH]; intros s Hs.
  - destruct s; [reflexivity|simpl in Hs; lia].
  - rewrite chunks_S, concat_cons, IH.
    + apply firstn_skipn.
    + rewrite length_skipn. lia.
Qed.

Lemma blocks_count (s : str) : (length s <= 4 * ((length s + 3) / 4))%nat.
Proof.
  pose proof (Nat.div_mod_eq (length s + 3) 4) as H.
  pose proof (Nat.mod_upper_bound (length s + 3) 4) as H'. lia.
Qed.

Lemma strip_from_short k : forall s : str,
  (length s <= k)%nat -> strip_from k s = s.
Proof.
  induction k as [|k IH]; intros [|c s] Hs; simpl in *; try reflexivity; try lia.
  f_equal. apply IH. lia.
Qed.

Lemma strip_chunks m : forall s,
  m = ((length s + 3) / 4)%nat ->
  strip_from 4 (join (lit " ") (chunks m s)) = s.
Proof.
  induction m as [|m IH]; intros s Hm.
  - destruct s as [|c s]; [reflexivity|]. exfalso.
    pose proof (blocks_count (c :: s)) as H. rewrite <- Hm in H. simpl in H. lia.
  - rewrite chunks_S. destruct m as [|m].
    + assert (Hs : (length s <= 4)%nat).
      { pose proof (blocks_count s) as H. rewrite <- Hm in H. lia. }
      change (chunks 0 (skipn 4 s)) with (@nil str). cbn [join].
      rewrite firstn_all2 by assumption. now apply strip_from_short.
    + assert (Hs : (5 <= length s)%nat).
      { destruct (Nat.le_gt_cases 5 (length s)) as [H|H]; [assumption|].
        exfalso. assert (Hd : ((length s + 3) / 4 <= 1)%nat).
        { apply Nat.lt_succ_r. apply Nat.Div0.div_lt_upper_bound. lia. }
        lia. }
      destruct s as [|a [|b [|c [|d s]]]]; simpl in Hs; try lia.
      change (skipn 4 (a :: b :: c :: d :: s)) with s.
      change (firstn 4 (a :: b :: c :: d :: s)) with [a; b; c; d].
      rewrite chunks_S.
      change (strip_from 4 (join (lit " ") ([a; b; c; d] :: firstn 4 s :: chunks m (skipn 4 s))))
        with (a :: b :: c :: d
              :: strip_from 4 (join (lit " ") (firstn 4 s :: chunks m (skipn 4 s)))).
      rewrite <- chunks_S. rewrite IH; [reflexivity|].
      simpl length in Hm.
      replace (S (S (S (S (length s)))) + 3)%nat with (1 * 4 + (length s + 3))%nat in Hm by lia.
      rewrite Nat.div_add_l in Hm by lia. lia.
Qed.

Lemma remove_spaces_join l :
  remove_spaces (join (lit " ") l) = remove_spaces (concat l).
Proof.
  induction l as [|x [|y t] IH].
  - reflexivity.
  - simpl. now rewrite app_nil_r.
  - change (join (lit " ") (x :: y :: t))
      with (x ++ lit " " ++ join (lit " ") (y :: t)).
    rewrite concat_cons. unfold remove_spaces in *.
    rewrite !filter_app. f_equal. exact IH.
Qed.

(** C8. Formatter round trip, for every string: the blocks are the
    consecutive four-character pieces, left to right and without overlap;
    concatenating them gives the string back; taking the separators out
    of the displayed line gives the string back; and deleting all spaces
    from the displayed line deletes no more than the spaces of the string
    itself. *)
Theorem C8_formatter_round_trip (s : str) :
  blocks4 s = map (fun k => firstn 4 (skipn (4 * k) s))
                  (seq 0 ((length s + 3) / 4))
  /\ concat (blocks4 s) = s
  /\ strip_separators (format s) = s
  /\ remove_spaces (format s) = remove_spaces s.
Proof.
  repeat split.
  - apply blocks4_chunks.
  - rewrite blocks4_chunks. apply concat_chunks, blocks_count.
  - unfold strip_separators, format. rewrite blocks4_chunks.
    now apply strip_chunks.
  - unfold format. rewrite remove_spaces_join, blocks4_chunks.
    now rewrite concat_chunks by apply blocks_count.
Qed.

(* ================================================================== *)
(** * Encoding and hashing *)

(** Known answers: FIPS 180-4 test messages (one block, the empty
    message, two blocks), and UTF-8 sequences of one to four bytes. *)
Example constants_of_the_standard :
  length Sha256.K = 64%nat
  /\ firstn 2 Sha256.K = [0x428a2f98; 0x71374491]%N
  /\ skipn 62 Sha256.K = [0xbef9a3f7; 0xc67178f2]%N
  /\ Sha256.ra Sha256.H0 = 0x6a09e667%N
  /\ Sha256.rh Sha256.H0 = 0x5be0cd19%N.
Proof. repeat split. Qed.

Example sha256_abc :
  Sha256.hexdigest (map Utf8.byte_of (lit "abc"))
  = lit "ba7816bf8f01cfea414140de5dae2223b00361a396177a9cb410ff61f20015ad".
Proof. vm_compute. reflexivity. Qed.

Example sha256_empty :
  Sha256.hexdigest []
  = lit "e3b0c44298fc1c149afbf4c8996fb92427ae41e4649b934ca495991b7852b855".
Proof. vm_compute. reflexivity. Qed.

Example sha256_two_blocks :
  Sha256.hexdigest
    (map Utf8.byte_of
         (lit "abcdbcdecdefdefgefghfghighijhijkijkljklmklmnlmnomnopnopq"))
  = lit "248d6a61d20638b8e5c026930c3e6039a33ce45964ff2167f6ecedd419db06c1".
Proof. vm_compute. reflexivity. Qed.

Example utf8_widths :
  Utf8.encode [0x41; 0xE9; 0x20AC; 0x1F600]%N
  = Ok [x41; xc3; xa9; xe2; x82; xac; xf0; x9f; x98; x80].
Proof. vm_compute. reflexivity. Qed.

Example utf8_surrogate : Utf8.encode [0xD800]%N = Raise UnicodeEncodeError.
Proof. reflexivity. Qed.

Example hash_phrase_fruit :
  hash_phrase (lit "apple delta echo banana")
  = Ok (lit "e31bfcd86f94613f0098e76211482cd47a4557c68172be47becb9d9da2ad8c6c").
Proof. vm_compute. reflexivity. Qed.

Lemma encode_char_total c :
  Utf8.scalar c = true -> exists bs, Utf8.encode_char c = Ok bs.
Proof.
  intros H. unfold Utf8.encode_char. rewrite H. cbn [negb].
  repeat match goal with
         | |- context [if ?b then _ else _] => destruct b
         end; eauto.
Qed.

Lemma encode_total s :
  forallb Utf8.scalar s = true -> exists bs, Utf8.encode s = Ok bs.
Proof.
  intros H. unfold Utf8.encode.
  destruct (rmap_total Utf8.encode_char s) as [bss Hb].
  - intros c Hc. apply encode_char_total.
    rewrite forallb_forall in H. now apply H.
  - rewrite Hb. simpl. eauto.
Qed.

Lemma encode_Ok_scalar s bs :
  Utf8.encode s = Ok bs -> forallb Utf8.scalar s = true.
Proof.
  unfold Utf8.encode. destruct (rmap Utf8.encode_char s) as [bss|e] eqn:E; [|discriminate].
  intros _. apply rmap_Ok in E. apply forallb_forall. intros c Hc.
  destruct (Forall2_In_l _ _ _ _ E Hc) as (b & _ & Hb).
  unfold Utf8.encode_char in Hb. destruct (Utf8.scalar c); [reflexivity|discriminate].
Qed.

Lemma digest_length msg : length (Sha256.digest msg) = 32%nat.
Proof. unfold Sha256.digest. cbv zeta. rewrite !length_app. reflexivity. Qed.

Lemma hex_of_byte_alphabet b :
  forallb (contains Sha256.hexdigits) (Sha256.hex_of_byte b) = true.
Proof. destruct b; reflexivity. Qed.

Lemma hexdigest_length msg : length (Sha256.hexdigest msg) = 64%nat.
Proof.
  unfold Sha256.hexdigest.
  rewrite (flat_map_constant_length (c := 2)) by reflexivity.
  now rewrite digest_length.
Qed.

Lemma hexdigest_alphabet msg :
  forallb (contains Sha256.hexdigits) (Sha256.hexdigest msg) = true.
Proof.
  unfold Sha256.hexdigest. induction (Sha256.digest msg) as [|b t IH].
  - reflexivity.
  - cbn [flat_map]. now rewrite forallb_app, hex_of_byte_alphabet, IH.
Qed.

Lemma contains_In s c : contains s c = true <-> In c s.
Proof.
  unfold contains. rewrite existsb_exists. split.
  - intros (x & Hx & E). apply N.eqb_eq in E. now subst.
  - intros H. exists c. split; [assumption|apply N.eqb_refl].
Qed.

(** ** UTF-8 against RFC 3629 *)

Lemma to_N_byte_of n : Byte.to_N (Utf8.byte_of n) = (n mod 256)%N.
Proof.
  unfold Utf8.byte_of. destruct (Byte.of_N (n mod 256)) as [b|] eqn:E.
  - now apply Byte.to_of_N.
  - apply Byte.of_N_None_iff in E.
    pose proof (N.mod_lt n 256 ltac:(discriminate)). lia.
Qed.

Lemma testbit_small x k n : (x < 2 ^ k)%N -> (k <= n)%N -> N.testbit x n = false.
Proof.
  intros Hx Hk. destruct (N.eq_dec x 0) as [->|Hz]; [apply N.bits_0|].
  apply N.bits_above_log2. apply N.lt_le_trans with k; [|assumption].
  apply N.log2_lt_pow2; lia.
Qed.

(** Setting bits below a multiple of [2 ^ k] adds them. *)
Lemma lor_add m k x : (x < 2 ^ k)%N -> N.lor (m * 2 ^ k) x = (m * 2 ^ k + x)%N.
Proof.
  intros Hx.
  assert (H0 : N.land (m * 2 ^ k) x = 0%N).
  { apply N.bits_inj. intros n. rewrite N.land_spec, N.bits_0.
    destruct (N.lt_ge_cases n k) as [Hn|Hn].
    - now rewrite N.mul_pow2_bits_low.
    - now rewrite (testbit_small x k n), andb_false_r. }
  now rewrite <- N.lxor_lor, <- N.add_nocarry_lxor.
Qed.

Lemma cont_octet c j :
  Byte.to_N (Utf8.cont c j) = (128 + (c / 2 ^ j) mod 64)%N.
Proof.
  unfold Utf8.cont. rewrite to_N_byte_of, N.shiftr_div_pow2.
  change 0x3F%N with (N.ones 6). rewrite N.land_ones.
  change 0x80%N with (2 * 2 ^ 6)%N.
  pose proof (N.mod_lt (c / 2 ^ j) (2 ^ 6) ltac:(discriminate)) as Hlt.
  rewrite lor_add by assumption.
  change (2 ^ 6)%N with 64%N in *. apply N.mod_small. lia.
Qed.

Lemma lead_octet m k c j :
  (c / 2 ^ j < 2 ^ k)%N -> (m * 2 ^ k + 2 ^ k <= 256)%N ->
  Byte.to_N (Utf8.byte_of (N.lor (m * 2 ^ k) (N.shiftr c j)))
  = (m * 2 ^ k + c / 2 ^ j)%N.
Proof.
  intros Hc Hm. rewrite to_N_byte_of, N.shiftr_div_pow2, lor_add by assumption.
  apply N.mod_small. lia.
Qed.

Lemma scalar_bound c : Utf8.scalar c = true -> (c < 0x110000)%N.
Proof.
  unfold Utf8.scalar. intros H. apply orb_true_iff in H.
  destruct H as [H|H].
  - apply N.ltb_lt in H. lia.
  - apply andb_true_iff in H. destruct H as [_ H]. now apply N.ltb_lt in H.
Qed.

Ltac ok_list H :=
  apply (f_equal (fun r => match r with Ok x => x | Raise _ => [] end)) in H;
  cbv beta iota in H; subst.

Lemma encode_char_octets c bs :
  Utf8.encode_char c = Ok bs -> map Byte.to_N bs = Rfc3629.octets c.
Proof.
  unfold Utf8.encode_char, Rfc3629.octets.
  destruct (Utf8.scalar c) eqn:Hs; cbn [negb]; [|discriminate].
  apply scalar_bound in Hs.
  destruct (c <? 128)%N eqn:H1.
  { intros H. ok_list H. cbn [map]. rewrite to_N_byte_of.
    apply N.ltb_lt in H1. rewrite N.mod_small by lia. reflexivity. }
  destruct (c <? 2048)%N eqn:H2.
  { intros H. ok_list H. cbn [map]. rewrite cont_octet.
    change (2 ^ 0)%N with 1%N. rewrite N.div_1_r.
    change 0xC0%N with (6 * 2 ^ 5)%N. rewrite lead_octet.
    - reflexivity.
    - apply N.ltb_lt in H2. apply N.Div0.div_lt_upper_bound.
      change (2 ^ 6 * 2 ^ 5)%N with 2048%N. assumption.
    - vm_compute. discriminate. }
  destruct (c <? 65536)%N eqn:H3.
  { intros H. ok_list H. cbn [map]. rewrite !cont_octet.
    change (2 ^ 0)%N with 1%N. rewrite N.div_1_r.
    change 0xE0%N with (14 * 2 ^ 4)%N. rewrite lead_octet.
    - reflexivity.
    - apply N.ltb_lt in H3. apply N.Div0.div_lt_upper_bound.
      change (2 ^ 12 * 2 ^ 4)%N with 65536%N. assumption.
    - vm_compute. discriminate. }
  intros H. ok_list H. cbn [map]. rewrite !cont_octet.
  change (2 ^ 0)%N with 1%N. rewrite N.div_1_r.
  change 0xF0%N with (30 * 2 ^ 3)%N. rewrite lead_octet.
  - reflexivity.
  - apply N.Div0.div_lt_upper_bound.
    change (2 ^ 18 * 2 ^ 3)%N with 2097152%N. lia.
  - vm_compute. discriminate.
Qed.

Lemma encode_encoding s bs :
  Utf8.encode s = Ok bs -> map Byte.to_N bs = Rfc3629.encoding s.
Proof.
  unfold Utf8.encode.
  destruct (rmap Utf8.encode_char s) as [bss|e] eqn:E; [|discriminate].
  intros H. injection H as <-. apply rmap_Ok in E.
  induction E as [|c b s bss Hc _ IH]; [reflexivity|].
  cbn [concat Rfc3629.encoding flat_map]. rewrite map_app.
  rewrite (encode_char_octets _ _ Hc). f_equal. exact IH.
Qed.

(** Quotient and remainder by a constant, as two fresh numbers. *)
Ltac euclid c d q r :=
  pose proof (N.Div0.div_mod c d);
  pose proof (N.mod_lt c d ltac:(discriminate));
  set (q := (c / d)%N) in *; set (r := (c mod d)%N) in *;
  clearbody q r.

Lemma decoding_octets c rest :
  (c < 0x110000)%N ->
  Rfc3629.decoding (Rfc3629.octets c ++ rest)
  = option_map (cons c) (Rfc3629.decoding rest).
Proof.
  intros Hc. unfold Rfc3629.octets.
  assert (E2 : (c / 4096 = c / 64 / 64)%N) by now rewrite N.Div0.div_div.
  assert (E3 : (c / 262144 = c / 64 / 64 / 64)%N) by now rewrite !N.Div0.div_div.
  rewrite E2, E3. clear E2 E3.
  euclid c 64%N q1 r1. euclid q1 64%N q2 r2. euclid q2 64%N q3 r3.
  destruct (c <? 128)%N eqn:Lt1.
  { cbn [app Rfc3629.decoding]. now rewrite Lt1. } apply N.ltb_ge in Lt1.
  destruct (c <? 2048)%N eqn:Lt2.
  { apply N.ltb_lt in Lt2. cbn [app Rfc3629.decoding].
    replace (192 + q1 <? 128)%N with false by (symmetry; apply N.ltb_ge; lia).
    replace (192 + q1 <? 224)%N with true by (symmetry; apply N.ltb_lt; lia).
    do 2 f_equal. lia. }
  apply N.ltb_ge in Lt2.
  destruct (c <? 65536)%N eqn:Lt3.
  { apply N.ltb_lt in Lt3. cbn [app Rfc3629.decoding].
    replace (224 + q2 <? 128)%N with false by (symmetry; apply N.ltb_ge; lia).
    replace (224 + q2 <? 224)%N with false by (symmetry; apply N.ltb_ge; lia).
    replace (224 + q2 <? 240)%N with true by (symmetry; apply N.ltb_lt; lia).
    do 2 f_equal. lia. }
  apply N.ltb_ge in Lt3. cbn [app Rfc3629.decoding].
  replace (240 + q3 <? 128)%N with false by (symmetry; apply N.ltb_ge; lia).
  replace (240 + q3 <? 224)%N with false by (symmetry; apply N.ltb_ge; lia).
  replace (240 + q3 <? 240)%N with false by (symmetry; apply N.ltb_ge; lia).
  do 2 f_equal. lia.
Qed.

Lemma decoding_encoding s :
  forallb Utf8.scalar s = true ->
  Rfc3629.decoding (Rfc3629.encoding s) = Some s.
Proof.
  induction s as [|c s IH]; [reflexivity|].
  cbn [forallb]. intros H. apply andb_true_iff in H. destruct H as [Hc Hs].
  cbn [Rfc3629.encoding flat_map].
  rewrite decoding_octets by now apply scalar_bound.
  change (flat_map Rfc3629.octets s) with (Rfc3629.encoding s).
  now rewrite IH.
Qed.

(** ** SHA-256 against FIPS 180-4 *)

Lemma K_standard : Sha256.K = Fips180.K.
Proof. reflexivity. Qed.

Lemma H0_standard : Sha256.H0 = Fips180.H_initial.
Proof. reflexivity. Qed.

Lemma be_bytes_octets width x :
  map Byte.to_N (Sha256.be_bytes width x)
  = map (fun i => (x / 256 ^ i) mod 256)%N (map N.of_nat (rev (seq 0 width))).
Proof.
  unfold Sha256.be_bytes. rewrite !map_map. apply map_ext. intros k.
  rewrite to_N_byte_of, N.shiftr_div_pow2, N.pow_mul_r. reflexivity.
Qed.

Lemma find_pointwise {A} (f g : A -> bool) l :
  (forall x, f x = g x) -> List.find f l = List.find g l.
Proof.
  intros H. induction l as [|x t IH]; [reflexivity|].
  cbn [List.find]. now rewrite H, IH.
Qed.

Lemma zero_bits_mod l :
  Fips180.zero_bits (8 * l) = Fips180.zero_bits (8 * (l mod 64)).
Proof.
  unfold Fips180.zero_bits.
  rewrite (find_pointwise _
             (fun k => Nat.eqb ((8 * (l mod 64) + 1 + k) mod 512) 448));
    [reflexivity|].
  intros k. f_equal. rewrite <- !Nat.add_assoc.
  rewrite <- (Nat.Div0.add_mod_idemp_l (8 * l)).
  change 512%nat with (8 * 64)%nat.
  now rewrite Nat.Div0.mul_mod_distr_l.
Qed.

(** The zero octets of [pad] are the zero bits of the standard. *)
Lemma zeros_standard l :
  ((64 - (l + 9) mod 64) mod 64 = (Fips180.zero_bits (8 * l) - 7) / 8)%nat.
Proof.
  rewrite zero_bits_mod, <- (Nat.Div0.add_mod_idemp_l l 9 64).
  pose proof (Nat.mod_upper_bound l 64 ltac:(discriminate)) as Hr.
  generalize dependent (l mod 64)%nat. intros r Hr.
  assert (Hall : forallb
            (fun r => Nat.eqb ((64 - (r + 9) mod 64) mod 64)
                              ((Fips180.zero_bits (8 * r) - 7) / 8))
            (seq 0 64) = true) by (vm_compute; reflexivity).
  rewrite forallb_forall in Hall. apply Nat.eqb_eq, Hall, in_seq. lia.
Qed.

Lemma pad_padded msg :
  map Byte.to_N (Sha256.pad msg) = Fips180.padded (map Byte.to_N msg).
Proof.
  unfold Sha256.pad, Fips180.padded. cbv zeta.
  rewrite !map_app, map_repeat, be_bytes_octets, length_map, zeros_standard.
  reflexivity.
Qed.

Lemma pad_length msg : exists total, length (Sha256.pad msg) = (64 * total)%nat.
Proof.
  unfold Sha256.pad, Sha256.be_bytes. cbv zeta.
  rewrite !length_app, repeat_length, length_map, length_rev, length_seq.
  cbn [length]. set (l := length msg).
  pose proof (Nat.div_mod_eq (l + 9) 64) as E.
  pose proof (Nat.mod_upper_bound (l + 9) 64 ltac:(discriminate)) as B.
  set (q := ((l + 9) / 64)%nat) in *. set (r := ((l + 9) mod 64)%nat) in *.
  clearbody q r. destruct (Nat.eq_dec r 0) as [->|Hr].
  - change ((64 - 0) mod 64)%nat with 0%nat. exists q. lia.
  - rewrite Nat.mod_small by lia. exists (S q). lia.
Qed.

Lemma list_ind4 {A} (P : list A -> Prop) :
  (forall l, (length l < 4)%nat -> P l) ->
  (forall a b c d l, P l -> P (a :: b :: c :: d :: l)) ->
  forall l, P l.
Proof.
  intros Hs Hstep l.
  assert (H : forall n l, (length l <= n)%nat -> P l).
  { induction n as [|n IH]; intros k Hk;
      destruct k as [|a [|b [|c [|d k]]]];
      try (apply Hs; cbn [length]; lia); cbn [length] in Hk; [lia|].
    apply Hstep, IH. lia. }
  now apply (H (length l)).
Qed.

Lemma words_of_length bs : length (Sha256.words_of bs) = (length bs / 4)%nat.
Proof.
  induction bs as [l Hl|a b c d l IH] using list_ind4.
  - rewrite Nat.div_small by assumption.
    destruct l as [|a [|b [|c [|d l]]]]; try reflexivity.
    cbn [length] in Hl. lia.
  - cbn [Sha256.words_of length]. rewrite IH.
    change (S (S (S (S (length l))))) with (4 + length l)%nat.
    replace (4 + length l)%nat with (length l + 1 * 4)%nat by lia.
    rewrite Nat.div_add by discriminate. lia.
Qed.

(** Word [j] of the message: four octets, the most significant first. *)
Lemma words_of_nth bs : forall j, (4 * j + 4 <= length bs)%nat ->
  nth j (Sha256.words_of bs) 0%N
  = (nth (4 * j + 0) (map Byte.to_N bs) 0 * 2 ^ 24
     + nth (4 * j + 1) (map Byte.to_N bs) 0 * 2 ^ 16
     + nth (4 * j + 2) (map Byte.to_N bs) 0 * 2 ^ 8
     + nth (4 * j + 3) (map Byte.to_N bs) 0)%N.
Proof.
  induction bs as [l Hl|a b c d l IH] using list_ind4; intros j Hj; [lia|].
  destruct j as [|j].
  - cbn [Sha256.words_of nth map Nat.mul Nat.add].
    change (2 ^ 24)%N with 16777216%N. change (2 ^ 16)%N with 65536%N.
    change (2 ^ 8)%N with 256%N. lia.
  - cbn [Sha256.words_of nth map]. cbn [length] in Hj.
    rewrite IH by lia.
    replace (4 * S j + 0)%nat with (S (S (S (S (4 * j + 0))))) by lia.
    replace (4 * S j + 1)%nat with (S (S (S (S (4 * j + 1))))) by lia.
    replace (4 * S j + 2)%nat with (S (S (S (S (4 * j + 2))))) by lia.
    replace (4 * S j + 3)%nat with (S (S (S (S (4 * j + 3))))) by lia.
    reflexivity.
Qed.

Lemma add32_assoc a b c :
  Sha256.add32 (Sha256.add32 a b) c = Sha256.add32 a (Sha256.add32 b c).
Proof.
  unfold Sha256.add32.
  now rewrite N.Div0.add_mod_idemp_l, N.Div0.add_mod_idemp_r, N.add_assoc.
Qed.

Lemma add32_comm a b : Sha256.add32 a b = Sha256.add32 b a.
Proof. unfold Sha256.add32. now rewrite N.add_comm. Qed.

Lemma W_upto_stable m : forall n n' t, (t < n)%nat -> (t < n')%nat ->
  Fips180.W_upto n m t = Fips180.W_upto n' m t.
Proof.
  induction n as [|n IH]; intros n' t Hn Hn'; [lia|].
  destruct n' as [|n']; [lia|]. cbn [Fips180.W_upto].
  destruct (t <? 16)%nat eqn:E; [reflexivity|]. apply Nat.ltb_ge in E.
  rewrite (IH n' (t - 2)%nat), (IH n' (t - 7)%nat), (IH n' (t - 15)%nat),
    (IH n' (t - 16)%nat) by lia.
  reflexivity.
Qed.

Lemma W_low m t : (t < 16)%nat -> Fips180.W m t = m t.
Proof.
  intros H. unfold Fips180.W. cbn [Fips180.W_upto].
  apply Nat.ltb_lt in H. now rewrite H.
Qed.

Lemma W_high m t : (16 <= t)%nat ->
  Fips180.W m t
  = Sha256.add32
      (Sha256.add32
         (Sha256.add32 (Sha256.sigma1 (Fips180.W m (t - 2)))
                       (Fips180.W m (t - 7)))
         (Sha256.sigma0 (Fips180.W m (t - 15))))
      (Fips180.W m (t - 16)).
Proof.
  intros H. unfold Fips180.W at 1. cbn [Fips180.W_upto].
  apply Nat.ltb_ge in H. rewrite H. apply Nat.ltb_ge in H.
  unfold Fips180.W.
  rewrite (W_upto_stable m t (S (t - 2)) (t - 2)),
    (W_upto_stable m t (S (t - 7)) (t - 7)),
    (W_upto_stable m t (S (t - 15)) (t - 15)),
    (W_upto_stable m t (S (t - 16)) (t - 16)) by lia.
  reflexivity.
Qed.

(** The list that [schedule] builds holds the words [W] of the standard. *)
Lemma schedule_W blk m :
  length blk = 16%nat -> (forall t, (t < 16)%nat -> nth t blk 0%N = m t) ->
  forall j,
    length (Nat.iter j Sha256.schedule_step blk) = (16 + j)%nat
    /\ forall t, (t < 16 + j)%nat ->
         nth t (Nat.iter j Sha256.schedule_step blk) 0%N = Fips180.W m t.
Proof.
  intros Hl Hm. induction j as [|j [IHl IHn]].
  - split; [cbn [Nat.iter nat_rect]; lia|]. intros t Ht. cbn [Nat.iter nat_rect].
    rewrite W_low by lia. apply Hm. lia.
  - cbn [Nat.iter nat_rect].
    change (nat_rect (fun _ => list N) blk (fun _ => Sha256.schedule_step) j)
      with (Nat.iter j Sha256.schedule_step blk).
    set (w := Nat.iter j Sha256.schedule_step blk) in *.
    unfold Sha256.schedule_step. rewrite IHl. split.
    + rewrite length_app, IHl. cbn [length]. lia.
    + intros t Ht. destruct (Nat.eq_dec t (16 + j)) as [->|Hne].
      * rewrite app_nth2 by lia. rewrite IHl, Nat.sub_diag. cbn [nth].
        rewrite !IHn by lia. rewrite (W_high m (16 + j)) by lia.
        symmetry. apply add32_assoc.
      * rewrite app_nth1 by lia. apply IHn. lia.
Qed.

Lemma firstn_snoc {A} (d : A) (l : list A) : forall t, (t < length l)%nat ->
  firstn (S t) l = firstn t l ++ [nth t l d].
Proof.
  induction l as [|x l IH]; intros [|t] H; cbn [length] in H; try lia.
  - reflexivity.
  - cbn [firstn nth app]. f_equal. apply IH. lia.
Qed.

(** The rounds of [compress] compute the working variables. *)
Lemma rounds_working Wl m h :
  length Wl = 64%nat -> (forall t, (t < 64)%nat -> nth t Wl 0%N = Fips180.W m t) ->
  forall t, (t <= 64)%nat ->
    fold_left Sha256.round (firstn t (combine Sha256.K Wl)) h
    = Fips180.working h m t.
Proof.
  intros Hl HW. induction t as [|t IH]; intros Ht; [reflexivity|].
  assert (Hk : length Sha256.K = 64%nat) by reflexivity.
  rewrite (firstn_snoc (0%N, 0%N))
    by (rewrite length_combine, Hk, Hl; cbn [Nat.min]; lia).
  rewrite fold_left_app, IH by lia. cbn [fold_left].
  rewrite combine_nth by congruence. rewrite HW by lia.
  cbn [Fips180.working]. rewrite K_standard. reflexivity.
Qed.

Lemma compress_next_hash h blk m :
  length blk = 16%nat -> (forall t, (t < 16)%nat -> nth t blk 0%N = m t) ->
  Sha256.compress h blk = Fips180.next_hash h m.
Proof.
  intros Hl Hm. unfold Sha256.compress, Fips180.next_hash, Sha256.schedule.
  cbv zeta. destruct (schedule_W blk m Hl Hm 48) as [HlW HnW].
  assert (Hk : length Sha256.K = 64%nat) by reflexivity.
  rewrite <- (firstn_all2 (n := 64)
               (combine Sha256.K (Nat.iter 48 Sha256.schedule_step blk)))
    by (rewrite length_combine, Hk, HlW; apply Nat.le_min_l).
  rewrite (rounds_working _ m h HlW HnW 64 (le_n _)).
  now rewrite !(add32_comm (_ h)).
Qed.

(** [blocks] steps through the hash values of the standard. *)
Lemma blocks_H bs total :
  length bs = (64 * total)%nat ->
  forall n i, (i + n <= total)%nat ->
    Sha256.blocks n (skipn (16 * i) (Sha256.words_of bs))
                  (Fips180.H (map Byte.to_N bs) i)
    = Fips180.H (map Byte.to_N bs) (i + n).
Proof.
  intros Hl. induction n as [|n IH]; intros i Hi.
  - now rewrite Nat.add_0_r.
  - cbn [Sha256.blocks]. rewrite skipn_skipn.
    replace (16 + 16 * i)%nat with (16 * S i)%nat by lia.
    rewrite (compress_next_hash _ _ (Fips180.M (map Byte.to_N bs) i)).
    + change (Fips180.next_hash (Fips180.H (map Byte.to_N bs) i)
                                (Fips180.M (map Byte.to_N bs) i))
        with (Fips180.H (map Byte.to_N bs) (S i)).
      rewrite IH by lia. f_equal. lia.
    + rewrite length_firstn, length_skipn, words_of_length, Hl.
      replace (64 * total)%nat with (16 * total * 4)%nat by lia.
      rewrite Nat.div_mul by discriminate. lia.
    + intros t Ht. rewrite nth_firstn.
      apply Nat.ltb_lt in Ht. rewrite Ht. apply Nat.ltb_lt in Ht.
      rewrite nth_skipn, words_of_nth by lia.
      unfold Fips180.M. cbv zeta.
      replace (4 * (16 * i + t))%nat with (64 * i + 4 * t)%nat by lia.
      reflexivity.
Qed.

(** [hashlib.sha256(msg).digest()] is the message digest of FIPS 180-4. *)
Lemma digest_sha256 msg :
  map Byte.to_N (Sha256.digest msg) = Fips180.sha256 (map Byte.to_N msg).
Proof.
  unfold Sha256.digest, Fips180.sha256. cbv zeta.
  destruct (pad_length msg) as [total Ht].
  rewrite <- pad_padded, length_map, words_of_length, Ht.
  replace (64 * total / 4 / 16)%nat with total
    by (rewrite Nat.Div0.div_div; change (4 * 16)%nat with 64%nat;
        now rewrite Nat.mul_comm, Nat.div_mul).
  replace (64 * total / 64)%nat with total
    by (now rewrite Nat.mul_comm, Nat.div_mul).
  pose proof (blocks_H (Sha256.pad msg) total Ht total 0 (le_n _)) as B.
  change (skipn (16 * 0) (Sha256.words_of (Sha256.pad msg)))
    with (Sha256.words_of (Sha256.pad msg)) in B.
  change (Fips180.H (map Byte.to_N (Sha256.pad msg)) 0) with Sha256.H0 in B.
  rewrite B. cbn [Nat.add].
  rewrite !map_app, !be_bytes_octets. reflexivity.
Qed.

Lemma unhex_hex bs :
  Fips180.unhex (flat_map Sha256.hex_of_byte bs) = Some (map Byte.to_N bs).
Proof.
  induction bs as [|b t IH]; [reflexivity|].
  cbn [flat_map map]. unfold Sha256.hex_of_byte at 1.
  cbn [app Fips180.unhex]. rewrite IH. destruct b; reflexivity.
Qed.

(** The hexadecimal digest reads back as the digest of the standard. *)
Lemma hexdigest_standard bs :
  Fips180.unhex (Sha256.hexdigest bs)
  = Some (Fips180.sha256 (map Byte.to_N bs)).
Proof. unfold Sha256.hexdigest. now rewrite unhex_hex, digest_sha256. Qed.

(* ================================================================== *)
(** * The word sampler *)

Lemma rstrip_split (l : str) :
  exists ws, l = rstrip l ++ ws /\ forallb isspace ws = true.
Proof.
  induction l as [|c t (ws & Ht & Hws)].
  - now exists [].
  - simpl. destruct (rstrip t) as [|x t'] eqn:E.
    + simpl in Ht. subst t. destruct (isspace c) eqn:Hc.
      * exists (c :: ws). simpl. now rewrite Hc.
      * now exists ws.
    + exists ws. split; [|assumption]. simpl. simpl in Ht. now rewrite <- Ht.
Qed.

Lemma rstrip_last (l : str) p c : rstrip l = p ++ [c] -> isspace c = false.
Proof.
  revert p. induction l as [|a t IH]; intros p; simpl.
  - destruct p; discriminate.
  - destruct (rstrip t) as [|x t'] eqn:E.
    + destruct (isspace a) eqn:Ha.
      * destruct p; discriminate.
      * destruct p as [|b [|b' p]]; simpl; try discriminate.
        intros [= ->]. assumption.
    + destruct p as [|b p]; simpl.
      * intros H. injection H as _ H. discriminate.
      * intros H. injection H as _ H. now apply (IH p).
Qed.

Lemma rstrip_scalar (l : str) :
  forallb Utf8.scalar l = true -> forallb Utf8.scalar (rstrip l) = true.
Proof.
  intros H. destruct (rstrip_split l) as (ws & Hl & _).
  rewrite Hl, forallb_app in H. now apply andb_true_iff in H.
Qed.

Lemma world_of_index lines vs j n :
  0 <= nth j vs 0 < n -> drawn_index (world_of lines vs) j n = nth j vs 0.
Proof. intros H. unfold drawn_index. simpl. now apply reduce_small. Qed.

Lemma world_strict w wlist :
  wordlist_txt w = Some wlist -> forallb (forallb Utf8.scalar) wlist = true.
Proof.
  intros Hw. pose proof (wordlist_strict w) as H. now rewrite Hw in H.
Qed.

Lemma world_of_text lines vs :
  forallb (forallb Utf8.scalar) lines = true ->
  wordlist_txt (world_of lines vs) = Some lines.
Proof. intros H. simpl. unfold text_of. now rewrite H. Qed.

Lemma sample_eq w wlist :
  wordlist_txt w = Some wlist -> wlist <> [] ->
  exists l0 l1 l2 l3,
    sample w = (Ok (map rstrip [l0; l1; l2; l3]), after 4 w)
    /\ forall j, (j < 4)%nat ->
         nth_error [l0; l1; l2; l3] j
         = nth_error wlist (Z.to_nat (drawn_index w j (len wlist))).
Proof.
  intros Hw Hne.
  destruct (choices_eq wlist 4 w Hne) as (xs & Hx & Hl & Hn).
  destruct xs as [|l0 [|l1 [|l2 [|l3 [|l4 xs]]]]]; try discriminate.
  exists l0, l1, l2, l3. split; [|assumption].
  unfold sample.
  assert (Hr : readlines w = (Ok wlist, w)) by (unfold readlines; now rewrite Hw).
  rewrite (bind_step _ _ _ _ _ Hr), (bind_step _ _ _ _ _ Hx). reflexivity.
Qed.

(** C9. The word sampler: from a word list that is not empty it returns
    exactly four words; word [j] is the line at the index of draw [j],
    every draw ranging over the whole list (so with replacement: any four
    lines, repeated or not, can come out), with its trailing whitespace
    removed; the phrase is the four words in that order with one space
    between them.  With a single line in the list the four words are that
    line, stripped, and phrase and digest are computed all the same. *)
Theorem C9_word_sampler (w : world) (wlist : list str) :
  wordlist_txt w = Some wlist -> 0 < len wlist ->
  exists l0 l1 l2 l3,
    let words := [rstrip l0; rstrip l1; rstrip l2; rstrip l3] in
    sample w = (Ok words, after 4 w)
    /\ length words = 4%nat
    /\ (forall j, (j < 4)%nat ->
          nth_error [l0; l1; l2; l3] j
          = nth_error wlist (Z.to_nat (drawn_index w j (len wlist)))
          /\ 0 <= drawn_index w j (len wlist) < len wlist)
    /\ (forall i0 i1 i2 i3 m0 m1 m2 m3,
          nth_error wlist i0 = Some m0 -> nth_error wlist i1 = Some m1 ->
          nth_error wlist i2 = Some m2 -> nth_error wlist i3 = Some m3 ->
          fst (sample (world_of wlist (map Z.of_nat [i0; i1; i2; i3])))
          = Ok [rstrip m0; rstrip m1; rstrip m2; rstrip m3])
    /\ (forall l : str,
          exists ws, l = rstrip l ++ ws /\ forallb isspace ws = true
                     /\ forall p c, rstrip l = p ++ [c] -> isspace c = false)
    /\ phrase_of words
       = rstrip l0 ++ lit " " ++ rstrip l1 ++ lit " " ++ rstrip l2
                   ++ lit " " ++ rstrip l3
    /\ (forall l, wlist = [l] ->
          words = [rstrip l; rstrip l; rstrip l; rstrip l]
          /\ (forallb Utf8.scalar l = true ->
              exists bs, Utf8.encode (phrase_of words) = Ok bs
                         /\ hash_phrase (phrase_of words)
                            = Ok (Sha256.hexdigest bs))).
Proof.
  intros Hw Hlen.
  assert (Hne : wlist <> []) by (intros ->; discriminate Hlen).
  destruct (sample_eq w wlist Hw Hne) as (l0 & l1 & l2 & l3 & Hs & Hn).
  exists l0, l1, l2, l3. cbv zeta.
  split; [exact Hs|]. split; [reflexivity|]. split.
  { intros j Hj. split; [now apply Hn|now apply drawn_index_range]. }
  split.
  { intros i0 i1 i2 i3 m0 m1 m2 m3 H0 H1 H2 H3.
    destruct (sample_eq (world_of wlist (map Z.of_nat [i0; i1; i2; i3])) wlist
                        (world_of_text _ _ (world_strict w wlist Hw)) Hne)
      as (k0 & k1 & k2 & k3 & Hs' & Hn').
    rewrite Hs'. simpl fst.
    assert (Hi : forall j i m, nth_error [i0; i1; i2; i3] j = Some i ->
                   nth_error wlist i = Some m ->
                   nth_error wlist
                     (Z.to_nat (drawn_index
                        (world_of wlist (map Z.of_nat [i0; i1; i2; i3])) j
                        (len wlist))) = Some m).
    { intros j i m Hj Hm.
      assert (Hv : nth j (map Z.of_nat [i0; i1; i2; i3]) 0 = Z.of_nat i).
      { change 0 with (Z.of_nat 0). rewrite map_nth. f_equal.
        now apply nth_error_nth. }
      assert (i < length wlist)%nat by (apply nth_error_Some; congruence).
      rewrite world_of_index; rewrite Hv; [|unfold len; lia].
      now rewrite Nat2Z.id. }
    pose proof (Hn' 0%nat ltac:(lia)) as E0. pose proof (Hn' 1%nat ltac:(lia)) as E1.
    pose proof (Hn' 2%nat ltac:(lia)) as E2. pose proof (Hn' 3%nat ltac:(lia)) as E3.
    rewrite (Hi 0%nat i0 m0 eq_refl H0) in E0. rewrite (Hi 1%nat i1 m1 eq_refl H1) in E1.
    rewrite (Hi 2%nat i2 m2 eq_refl H2) in E2. rewrite (Hi 3%nat i3 m3 eq_refl H3) in E3.
    simpl in E0, E1, E2, E3.
    injection E0 as ->. injection E1 as ->. injection E2 as ->. injection E3 as ->.
    reflexivity. }
  split.
  { intros l. destruct (rstrip_split l) as (ws & Hl & Hws).
    exists ws. split; [assumption|]. split; [assumption|]. apply rstrip_last. }
  split.
  { reflexivity. }
  intros l ->.
  assert (Hall : forall j lj, (j < 4)%nat ->
                   nth_error [l0; l1; l2; l3] j = Some lj -> lj = l).
  { intros j lj Hj Hlj. rewrite (Hn j Hj) in Hlj.
    pose proof (drawn_index_range w j (len [l]) Hlen) as Hr.
    change (len [l]) with 1 in *.
    replace (drawn_index w j 1) with 0 in Hlj by lia.
    simpl in Hlj. congruence. }
  rewrite (Hall 0%nat l0 ltac:(lia) eq_refl), (Hall 1%nat l1 ltac:(lia) eq_refl),
          (Hall 2%nat l2 ltac:(lia) eq_refl), (Hall 3%nat l3 ltac:(lia) eq_refl).
  split; [reflexivity|].
  intros Hsc. apply rstrip_scalar in Hsc.
  destruct (encode_total (phrase_of [rstrip l; rstrip l; rstrip l; rstrip l])) as [bs Hbs].
  { unfold phrase_of. cbn [join]. rewrite !forallb_app, Hsc. reflexivity. }
  exists bs. split; [assumption|]. unfold hash_phrase. now rewrite Hbs.
Qed.

Lemma C9_word_sampler_witness :
  exists l0 l1 l2 l3,
    let words := [rstrip l0; rstrip l1; rstrip l2; rstrip l3] in
    let w := world_of fruit pick_phrase in
    sample w = (Ok words, after 4 w)
    /\ length words = 4%nat
    /\ (forall j, (j < 4)%nat ->
          nth_error [l0; l1; l2; l3] j
          = nth_error fruit (Z.to_nat (drawn_index w j (len fruit)))
          /\ 0 <= drawn_index w j (len fruit) < len fruit)
    /\ (forall i0 i1 i2 i3 m0 m1 m2 m3,
          nth_error fruit i0 = Some m0 -> nth_error fruit i1 = Some m1 ->
          nth_error fruit i2 = Some m2 -> nth_error fruit i3 = Some m3 ->
          fst (sample (world_of fruit (map Z.of_nat [i0; i1; i2; i3])))
          = Ok [rstrip m0; rstrip m1; rstrip m2; rstrip m3])
    /\ (forall l : str,
          exists ws, l = rstrip l ++ ws /\ forallb isspace ws = true
                     /\ forall p c, rstrip l = p ++ [c] -> isspace c = false)
    /\ phrase_of words
       = rstrip l0 ++ lit " " ++ rstrip l1 ++ lit " " ++ rstrip l2
                   ++ lit " " ++ rstrip l3
    /\ (forall l, fruit = [l] ->
          words = [rstrip l; rstrip l; rstrip l; rstrip l]
          /\ (forallb Utf8.scalar l = true ->
              exists bs, Utf8.encode (phrase_of words) = Ok bs
                         /\ hash_phrase (phrase_of words)
                            = Ok (Sha256.hexdigest bs))).
Proof.
  apply (C9_word_sampler (world_of fruit pick_phrase) fruit).
  - reflexivity.
  - reflexivity.
Defined.

(** The sampler on the example list: the newline of each line is gone,
    and a list of one line gives four times that line. *)
Example sample_fruit :
  fst (sample (world_of fruit pick_phrase))
  = Ok (map lit ["apple"; "delta"; "echo"; "banana"]%string).
Proof. vm_compute. reflexivity. Qed.

Example sample_single_line :
  fst (sample (world_of [line "apple"] [5; 7; 0; 2]))
  = Ok (map lit ["apple"; "apple"; "apple"; "apple"]%string).
Proof. vm_compute. reflexivity. Qed.

(* ================================================================== *)
(** * Lengths along a run *)

Lemma stdout_after k w : stdout (after k w) = stdout w.
Proof. reflexivity. Qed.

Lemma choice_In {A} (seq : list A) w x w' :
  Random.choice seq w = (Ok x, w') -> In x seq.
Proof.
  intros H. destruct (choice_Ok seq w x w' H) as (_ & _ & Hn).
  eapply nth_error_In. eassumption.
Qed.

Lemma symbol_index_eq pw w :
  0 < len pw ->
  symbol_index pw w = (Ok (drawn_index w 0 (len pw)), after 1 w).
Proof. intros H. unfold symbol_index. now apply randint_eq. Qed.

Lemma run_facts w t w' :
  pwgen_body w = (Ok t, w') ->
  len (l_ch t) = 15
  /\ 0 <= l_pi t < 15
  /\ len (l_pw t) = 15 - (if l_pi t >? 0 then 1 else 0)
  /\ 0 <= l_pi' t <= len (l_pw t) - 1
  /\ l_final t = insert (l_pw t) (l_pi' t) (l_symbol t)
  /\ stdout w' = stdout w ++ [format (l_final t)].
Proof.
  intros H. destruct (pwgen_body_Ok w t w' H)
    as (pos & _ & _ & Hsel & Hpos & Hpi & Hcap & Hsi & _ & Hfin & Hpr).
  destruct (select_Ok _ _ _ _ Hsel) as (_ & _ & Hlen & _).
  assert (Hch : len (l_ch t) = 15) by (unfold len; rewrite Hlen; reflexivity).
  destruct (positions_In _ _ _ Hpos (choice_In _ _ _ _ Hpi))
    as (c & _ & Hrange & _).
  destruct (capitalise_len _ _ _ (proj1 Hrange) Hcap) as [_ Hpw].
  rewrite Hch in *.
  assert (Hpos' : 0 < len (l_pw t)).
  { rewrite Hpw. destruct (l_pi t >? 0); lia. }
  rewrite (symbol_index_eq _ _ Hpos') in Hsi. injection Hsi as Hsi.
  pose proof (drawn_index_range (after 20 w) 0 _ Hpos') as Hr. rewrite Hsi in Hr.
  unfold print in Hpr. injection Hpr as <-. simpl.
  repeat split; try assumption; lia.
Qed.

(** C10. Implicit in the slicing of lines 69-85: a run that reaches its
    end prints a password of 15 characters, less one when the
    capitalisation index is above 0, plus one when the insertion index is
    below the last index of the capitalised string; so between 14 and 16,
    and each of 14, 15 and 16 is the length of some run. *)
Theorem C10_final_length :
  (forall w w',
     pwgen w = (Ok tt, w') ->
     exists t,
       pwgen_body w = (Ok t, w')
       /\ stdout w' = stdout w ++ [format (l_final t)]
       /\ len (l_final t)
          = 15 - (if l_pi t >? 0 then 1 else 0)
            + (if l_pi' t <? len (l_pw t) - 1 then 1 else 0)
       /\ 14 <= len (l_final t) <= 16)
  /\ (exists t w', pwgen_body run14 = (Ok t, w') /\ len (l_final t) = 14)
  /\ (exists t w', pwgen_body run15 = (Ok t, w') /\ len (l_final t) = 15)
  /\ (exists t w', pwgen_body run16 = (Ok t, w') /\ len (l_final t) = 16).
Proof.
  split.
  - intros w w' H. apply pwgen_Ok in H. destruct H as [t Ht]. exists t.
    destruct (run_facts w t w' Ht) as (_ & Hpi & Hpw & Hsi & Hfin & Hout).
    split; [assumption|]. split; [assumption|].
    assert (Hlen : len (l_final t)
                   = len (l_pw t) + (if l_pi' t <? len (l_pw t) - 1 then 1 else 0)).
    { rewrite Hfin. now apply insert_len. }
    rewrite Hlen, Hpw. clear Hlen. split; [reflexivity|].
    destruct (l_pi t >? 0); destruct (l_pi' t <? _); lia.
  - split; [|split]; eexists; eexists; (split; [vm_compute; reflexivity|reflexivity]).
Qed.

Lemma C10_final_length_witness :
  exists t,
    pwgen_body run14 = (Ok t, snd (pwgen run14))
    /\ stdout (snd (pwgen run14)) = stdout run14 ++ [format (l_final t)]
    /\ len (l_final t)
       = 15 - (if l_pi t >? 0 then 1 else 0)
         + (if l_pi' t <? len (l_pw t) - 1 then 1 else 0)
    /\ 14 <= len (l_final t) <= 16.
Proof.
  apply (proj1 C10_final_length run14 (snd (pwgen run14))).
  vm_compute. reflexivity.
Defined.

(** What the three runs print. *)
Example run16_prints :
  stdout (snd (pwgen run16)) = [lit "E3!1 bfcd 86f9 4613"].
Proof. vm_compute. reflexivity. Qed.

Example run15_prints :
  stdout (snd (pwgen run15)) = [lit "e3!1 bfD8 6f94 613"].
Proof. vm_compute. reflexivity. Qed.

Example run14_prints :
  stdout (snd (pwgen run14)) = [lit "e31b fD86 f946 1!"].
Proof. vm_compute. reflexivity. Qed.

(* ================================================================== *)
(** * A selection without an eligible letter *)

Lemma positions_none ch :
  filter (contains capl) ch = [] -> positions ch = Ok [].
Proof. intros H. unfold positions. now rewrite H. Qed.

(** C6. When the selection holds no character of [capl], the list of
    positions is empty, [random.choice] raises (IndexError in the
    program, which the specification calls NoEligibleLetter), and the run
    ends there: [print] is not reached and standard output is as it was
    before the run. *)
Theorem C6_no_eligible_letter (w w1 w2 : world) (words : list str)
        (hphrase ch : str) :
  sample w = (Ok words, w1) ->
  hash_phrase (phrase_of words) = Ok hphrase ->
  select hphrase w1 = (Ok ch, w2) ->
  filter (contains capl) ch = [] ->
  exists w',
    pwgen w = (Raise IndexError, w')
    /\ capital_index ch w2 = (Raise IndexError, w')
    /\ stdout w' = stdout w.
Proof.
  intros Hs Hh Hsel Hnone. exists w2.
  assert (Hci : capital_index ch w2 = (Raise IndexError, w2)).
  { unfold capital_index, bind, lift. now rewrite (positions_none ch Hnone). }
  split; [|split].
  - apply pwgen_Raise. unfold pwgen_body.
    rewrite (bind_step _ _ _ _ _ Hs).
    unfold bind at 1, lift. rewrite Hh.
    rewrite (bind_step _ _ _ _ _ Hsel).
    now rewrite (bind_raise _ _ _ _ _ Hci).
  - assumption.
  - destruct (sample_Ok _ _ _ Hs) as (_ & _ & _ & _ & -> & _).
    destruct (select_Ok _ _ _ _ Hsel) as (_ & -> & _).
    reflexivity.
Qed.

Lemma C6_no_eligible_letter_witness :
  exists w',
    pwgen run_no_letter = (Raise IndexError, w')
    /\ capital_index (lit "333333333333333") (after 19 run_no_letter)
       = (Raise IndexError, w')
    /\ stdout w' = stdout run_no_letter.
Proof.
  apply (C6_no_eligible_letter run_no_letter (after 4 run_no_letter)
           (after 19 run_no_letter)
           (map lit ["apple"; "delta"; "echo"; "banana"]%string)
           (lit "e31bfcd86f94613f0098e76211482cd47a4557c68172be47becb9d9da2ad8c6c")
           (lit "333333333333333")).
  - vm_compute. reflexivity.
  - vm_compute. reflexivity.
  - vm_compute. reflexivity.
  - vm_compute. reflexivity.
Defined.

(* ================================================================== *)
(** * The symbol *)

(** C2, as the specification has it, fails: the index equal to the
    length of the capitalised string is never chosen. *)
Lemma C2_counterexample :
  ~ exists w w', symbol_index (lit "E31bfcd86f94613") w = (Ok 15, w').
Proof.
  intros (w & w' & H).
  rewrite symbol_index_eq in H by reflexivity. injection H as H _.
  pose proof (drawn_index_range w 0 (len (lit "E31bfcd86f94613")) eq_refl) as Hr.
  rewrite H in Hr. change (len (lit "E31bfcd86f94613")) with 15 in Hr. lia.
Qed.

(** C2, amended. The insertion index is chosen from [0, length - 1] of
    the capitalised string: the call of line 76 returns an index, the
    index lies in that range, and every index of the range can come out.
    At index 0 the symbol comes first and the whole capitalised string
    follows it. *)
Theorem C2_symbol_insertion (pw : str) :
  2 <= len pw ->
  (forall w, exists i w', symbol_index pw w = (Ok i, w'))
  /\ (forall w i w', symbol_index pw w = (Ok i, w') -> 0 <= i <= len pw - 1)
  /\ (forall i, 0 <= i <= len pw - 1 ->
        exists w w', symbol_index pw w = (Ok i, w'))
  /\ (forall symbol, insert pw 0 symbol = symbol :: pw).
Proof.
  intros Hlen. assert (Hpos : 0 < len pw) by lia.
  split; [|split; [|split]].
  - intros w. exists (drawn_index w 0 (len pw)), (after 1 w).
    now apply symbol_index_eq.
  - intros w i w' H. rewrite symbol_index_eq in H by assumption.
    injection H as <- _.
    pose proof (drawn_index_range w 0 (len pw) Hpos). lia.
  - intros i Hi. exists (world_of [] [i]), (after 1 (world_of [] [i])).
    rewrite symbol_index_eq by assumption.
    rewrite world_of_index; [reflexivity|simpl; lia].
  - intros symbol. rewrite insert_eq by lia.
    destruct (0 <? len pw - 1) eqn:E; [reflexivity|].
    apply Z.ltb_ge in E. lia.
Qed.

Lemma C2_symbol_insertion_witness :
  (forall w, exists i w',
     symbol_index (lit "E31bfcd86f94613") w = (Ok i, w'))
  /\ (forall w i w',
        symbol_index (lit "E31bfcd86f94613") w = (Ok i, w') ->
        0 <= i <= len (lit "E31bfcd86f94613") - 1)
  /\ (forall i, 0 <= i <= len (lit "E31bfcd86f94613") - 1 ->
        exists w w', symbol_index (lit "E31bfcd86f94613") w = (Ok i, w'))
  /\ (forall symbol, insert (lit "E31bfcd86f94613") 0 symbol
                     = symbol :: lit "E31bfcd86f94613").
Proof.
  apply (C2_symbol_insertion (lit "E31bfcd86f94613")). vm_compute. discriminate.
Defined.

(* ================================================================== *)
(** * Runs that the documented behaviour excludes

    The module's docstring promises a 16 character string with one
    capitalised letter; the comments of lines 67-68 and 74-75 describe a
    split at the chosen letter and an insertion.  The runs below are
    evaluated on the code. *)

(** C1. A run that prints fifteen characters: the selection is
    "e31bfcd86f94613", the capitalisation index 6 and the insertion
    index 2. *)
Theorem C1_run_of_15_characters :
  exists t w',
    pwgen_body run15 = (Ok t, w')
    /\ pwgen run15 = (Ok tt, w')
    /\ l_ch t = lit "e31bfcd86f94613"
    /\ l_pi t = 6 /\ l_pi' t = 2
    /\ l_final t = lit "e3!1bfD86f94613"
    /\ len (l_final t) = 15
    /\ stdout w' = [lit "e3!1 bfD8 6f94 613"]
    /\ len (remove_spaces (lit "e3!1 bfD8 6f94 613")) = 15.
Proof.
  eexists. eexists. split; [vm_compute; reflexivity|].
  repeat split; vm_compute; reflexivity.
Qed.

(** Where the capitalisation index is above 0 the character before the
    chosen one is not kept. *)
Lemma capitalise_drops ch pi c0 :
  0 < pi -> nth_error ch (Z.to_nat pi) = Some c0 ->
  capitalise ch pi
  = Ok (firstn (Z.to_nat pi - 1) ch ++ [upper c0] ++ skipn (Z.to_nat pi + 1) ch).
Proof.
  intros Hpi Hn. rewrite (capitalise_eq ch pi c0) by (assumption || lia).
  destruct (pi =? 0) eqn:E; [apply Z.eqb_eq in E; lia|].
  do 3 f_equal; f_equal; lia.
Qed.

(** C3. In the same run the capitalised string has fourteen characters:
    index 6, 'd', is chosen; 'D' stands at index 5 and the 'c' that was
    there is gone. *)
Theorem C3_capitalise_loses_a_character :
  exists t w',
    pwgen_body run15 = (Ok t, w')
    /\ l_ch t = lit "e31bfcd86f94613"
    /\ positions (l_ch t) = Ok [0; 4; 5; 6; 4]
    /\ l_pi t = 6
    /\ capitalise (lit "e31bfcd86f94613") 6 = Ok (lit "e31bfD86f94613")
    /\ l_pw t = lit "e31bfD86f94613"
    /\ len (l_pw t) = 14.
Proof.
  eexists. eexists. split; [vm_compute; reflexivity|].
  repeat split; vm_compute; reflexivity.
Qed.

(** C4. A run whose password has no uppercase character: the only
    eligible letter of the selection is its last character, and the
    symbol takes the place of the capital. *)
Theorem C4_run_without_capital :
  exists t w',
    pwgen_body run_capital_last = (Ok t, w')
    /\ l_ch t = lit "33333333333333a"
    /\ l_pi t = 14
    /\ l_pw t = lit "3333333333333A"
    /\ l_pi' t = 13
    /\ l_final t = lit "3333333333333!"
    /\ filter isupper (l_final t) = []
    /\ stdout w' = [lit "3333 3333 3333 3!"].
Proof.
  eexists. eexists. split; [vm_compute; reflexivity|].
  repeat split; vm_compute; reflexivity.
Qed.

(** C5. On fifteen 'a' the list of positions is fifteen times 0: index
    0 is the only candidate, whatever the generator delivers. *)
Theorem C5_candidates_of_all_a :
  (exists t w',
     pwgen_body run_all_a = (Ok t, w')
     /\ l_ch t = lit "aaaaaaaaaaaaaaa"
     /\ l_pi t = 0
     /\ l_pw t = lit "Aaaaaaaaaaaaaaa")
  /\ positions (lit "aaaaaaaaaaaaaaa") = Ok (repeat 0 15)
  /\ (forall w, exists w',
        capital_index (lit "aaaaaaaaaaaaaaa") w = (Ok 0, w'))
  /\ positions (lit "e31bfcd86f94613") = Ok [0; 4; 5; 6; 4].
Proof.
  split; [|split; [|split]].
  - eexists. eexists. split; [vm_compute; reflexivity|].
    repeat split; vm_compute; reflexivity.
  - vm_compute. reflexivity.
  - intros w. exists (after 1 w). unfold capital_index.
    assert (Hp : lift (positions (lit "aaaaaaaaaaaaaaa")) w = (Ok (repeat 0 15), w))
      by (vm_compute; reflexivity).
    rewrite (bind_step _ _ _ _ _ Hp).
    destruct (choice_eq (repeat 0 15) w) as (x & Hx & Hc); [discriminate|].
    rewrite Hc. apply nth_error_In, repeat_spec in Hx. now subst x.
  - vm_compute. reflexivity.
Qed.

(* ================================================================== *)
(** * The alphabets of a run *)

Lemma In_firstn {A} (x : A) n l : In x (firstn n l) -> In x l.
Proof.
  intros H. rewrite <- (firstn_skipn n l). apply in_or_app. now left.
Qed.

Lemma In_skipn {A} (x : A) n l : In x (skipn n l) -> In x l.
Proof.
  intros H. rewrite <- (firstn_skipn n l). apply in_or_app. now right.
Qed.

Lemma filter_none {A} (f : A -> bool) l :
  (forall x, In x l -> f x = false) -> filter f l = [].
Proof.
  induction l as [|x t IH]; intros H; [reflexivity|]. simpl.
  rewrite (H x (or_introl eq_refl)). apply IH. intros y Hy. apply H. now right.
Qed.

Lemma contains_forall (s : str) (P : char -> bool) c :
  forallb P s = true -> contains s c = true -> P c = true.
Proof.
  intros Hall Hc. rewrite forallb_forall in Hall. apply Hall.
  now apply contains_In.
Qed.

(** What the fixed strings of the program have in common, by
    evaluation. *)
Lemma hex_facts :
  forallb (fun c => negb (isupper c) && negb (contains symbols c)
                    && negb (isspace c) && negb (contains capitals c)
                    && (negb (contains capl c) || contains hex_letters c))
          Sha256.hexdigits = true.
Proof. reflexivity. Qed.

Lemma hex_letters_facts :
  forallb (fun c => contains capl c && contains Sha256.hexdigits c
                    && contains capitals (upper c) && isupper (upper c)
                    && N.eqb (lower (upper c)) c)
          hex_letters = true.
Proof. reflexivity. Qed.

Lemma capitals_facts :
  forallb (fun c => isupper c && negb (contains symbols c)
                    && negb (isspace c) && negb (contains Sha256.hexdigits c))
          capitals = true.
Proof. reflexivity. Qed.

Lemma symbols_facts :
  forallb (fun c => negb (isupper c) && negb (isspace c)
                    && negb (contains Sha256.hexdigits c)
                    && negb (contains capitals c))
          symbols = true.
Proof. reflexivity. Qed.

Lemma select_chars hphrase w ch w' c :
  select hphrase w = (Ok ch, w') -> In c ch -> In c hphrase.
Proof.
  intros H Hc. destruct (select_Ok _ _ _ _ H) as (_ & _ & Hlen & Hn).
  apply In_nth_error in Hc. destruct Hc as [j Hj].
  assert (j < 15)%nat by (rewrite <- Hlen; apply nth_error_Some; congruence).
  rewrite Hn in Hj by assumption. eapply nth_error_In. eassumption.
Qed.

Lemma hash_phrase_Ok phrase h :
  hash_phrase phrase = Ok h ->
  length h = 64%nat /\ forall c, In c h -> contains Sha256.hexdigits c = true.
Proof.
  unfold hash_phrase. destruct (Utf8.encode phrase) as [bs|e]; [|discriminate].
  simpl. intros [= <-]. split; [apply hexdigest_length|].
  intros c Hc. pose proof (hexdigest_alphabet bs) as Ha.
  rewrite forallb_forall in Ha. now apply Ha.
Qed.

(** The shape of the strings of a run that reached its end. *)
Lemma run_shape w t w' :
  pwgen_body w = (Ok t, w') ->
  exists c,
    (forall x, In x (l_ch t) -> contains Sha256.hexdigits x = true)
    /\ nth_error (l_ch t) (Z.to_nat (l_pi t)) = Some c
    /\ contains hex_letters c = true
    /\ (forall j, (j < Z.to_nat (l_pi t))%nat -> nth_error (l_ch t) j <> Some c)
    /\ l_pw t = (if l_pi t =? 0 then []
                 else firstn (Z.to_nat (l_pi t - 1)) (l_ch t))
                ++ [upper c] ++ skipn (Z.to_nat (l_pi t + 1)) (l_ch t)
    /\ In (l_symbol t) symbols
    /\ l_final t
       = firstn (Z.to_nat (l_pi' t)) (l_pw t) ++ [l_symbol t]
         ++ (if l_pi' t <? len (l_pw t) - 1
             then skipn (Z.to_nat (l_pi' t)) (l_pw t) else []).
Proof.
  intros H. destruct (pwgen_body_Ok w t w' H)
    as (pos & _ & Hh & Hsel & Hpos & Hpi & Hcap & _ & Hsym & Hfin & _).
  destruct (run_facts w t w' H) as (_ & Hrange & _ & Hsi & _ & _).
  destruct (hash_phrase_Ok _ _ Hh) as [_ Hhex].
  assert (Hch : forall x, In x (l_ch t) -> contains Sha256.hexdigits x = true).
  { intros x Hx. apply Hhex. eapply select_chars; eassumption. }
  destruct (positions_In _ _ _ Hpos (choice_In _ _ _ _ Hpi))
    as (c & Hc & _ & Hn & Hmin).
  exists c. split; [assumption|]. split; [assumption|]. split.
  { pose proof (contains_forall _ _ c hex_facts
                  (Hch c (nth_error_In _ _ Hn))) as Hf.
    cbv beta in Hf. rewrite Hc in Hf. rewrite !andb_true_iff in Hf. apply Hf. }
  split; [assumption|]. split.
  { rewrite (capitalise_eq _ _ c (proj1 Hrange) Hn) in Hcap. now injection Hcap. }
  split; [eapply choice_In; eassumption|].
  rewrite Hfin. apply insert_eq. lia.
Qed.

(* ================================================================== *)
(** * How a run ends *)




Lemma sample_missing w :
  wordlist_txt w = None ->
  sample w = (Raise (exn_of_read_error (wordlist_error w)), w).
Proof.
  intros H. unfold sample. apply bind_raise. unfold readlines. now rewrite H.
Qed.

Lemma sample_empty w :
  wordlist_txt w = Some [] -> sample w = (Raise IndexError, after 1 w).
Proof.
  intros H. unfold sample.
  assert (Hr : readlines w = (Ok [], w)) by (unfold readlines; now rewrite H).
  rewrite (bind_step _ _ _ _ _ Hr). apply bind_raise. apply choices_empty.
Qed.

Lemma join_scalar (l : list str) :
  (forall x, In x l -> forallb Utf8.scalar x = true) ->
  forallb Utf8.scalar (join (lit " ") l) = true.
Proof.
  induction l as [|x [|y t] IH]; intros H.
  - reflexivity.
  - apply H. now left.
  - change (join (lit " ") (x :: y :: t))
      with (x ++ lit " " ++ join (lit " ") (y :: t)).
    rewrite !forallb_app, (H x (or_introl eq_refl)), IH; [reflexivity|].
    intros z Hz. apply H. now right.
Qed.

(** The phrase of a run is made of the file's characters and of spaces,
    so [encode] accepts it. *)
Lemma phrase_scalar w words w1 :
  sample w = (Ok words, w1) -> forallb Utf8.scalar (phrase_of words) = true.
Proof.
  intros H. destruct (sample_Ok _ _ _ H)
    as (wlist & picked & Hw & _ & _ & -> & Hlen & Hn).
  pose proof (world_strict w wlist Hw) as Hstrict.
  rewrite forallb_forall in Hstrict.
  unfold phrase_of. apply join_scalar. intros x Hx.
  apply in_map_iff in Hx. destruct Hx as (l & <- & Hl).
  apply rstrip_scalar, Hstrict.
  apply In_nth_error in Hl. destruct Hl as [j Hj].
  assert (j < 4)%nat by (rewrite <- Hlen; apply nth_error_Some; congruence).
  rewrite Hn in Hj by assumption. eapply nth_error_In. eassumption.
Qed.


(** C7. The phrase hash.  The phrase of a run always has a digest, and
    line 57 computes it without reading or changing the state of the
    run: every run that samples the same words has the same digest.  The
    bytes hashed are the UTF-8 encoding of the phrase as RFC 3629 defines
    it, and decode to the phrase.  The digest is 64 characters of
    [0-9a-f], the hexadecimal writing of the SHA-256 message digest of
    those bytes as FIPS 180-4 defines it.  On the one-block and the
    two-block test message of the standard it is the published value. *)
Theorem C7_phrase_hash (w w1 : world) (words : list str) :
  sample w = (Ok words, w1) ->
  exists bs digest,
    Utf8.encode (phrase_of words) = Ok bs
    /\ map Byte.to_N bs = Rfc3629.encoding (phrase_of words)
    /\ Rfc3629.decoding (map Byte.to_N bs) = Some (phrase_of words)
    /\ hash_phrase (phrase_of words) = Ok digest
    /\ Fips180.unhex digest = Some (Fips180.sha256 (map Byte.to_N bs))
    /\ length digest = 64%nat
    /\ Forall (fun c => In c (lit "0123456789abcdef")) digest
    /\ (forall v t v',
          pwgen_body v = (Ok t, v') -> l_words t = words ->
          l_hphrase t = digest)
    /\ hash_phrase (lit "abc")
       = Ok (lit "ba7816bf8f01cfea414140de5dae2223b00361a396177a9cb410ff61f20015ad")
    /\ hash_phrase
         (lit "abcdbcdecdefdefgefghfghighijhijkijkljklmklmnlmnomnopnopq")
       = Ok (lit "248d6a61d20638b8e5c026930c3e6039a33ce45964ff2167f6ecedd419db06c1").
Proof.
  intros Hs. pose proof (phrase_scalar w words w1 Hs) as Hsc.
  destruct (encode_total _ Hsc) as [bs Hbs].
  assert (Hh : hash_phrase (phrase_of words) = Ok (Sha256.hexdigest bs)).
  { unfold hash_phrase. now rewrite Hbs. }
  exists bs, (Sha256.hexdigest bs).
  split; [assumption|].
  split; [now apply encode_encoding|].
  split; [rewrite (encode_encoding _ _ Hbs); now apply decoding_encoding|].
  split; [assumption|].
  split; [apply hexdigest_standard|].
  split; [apply hexdigest_length|].
  split.
  { apply Forall_forall. intros c Hc. apply contains_In.
    pose proof (hexdigest_alphabet bs) as Ha.
    rewrite forallb_forall in Ha. now apply Ha. }
  split.
  { intros v t v' Hb Hw.
    destruct (pwgen_body_Ok _ _ _ Hb) as (pos & _ & Hh' & _).
    rewrite Hw, Hh in Hh'. congruence. }
  split; vm_compute; reflexivity.
Qed.

Lemma C7_phrase_hash_witness :
  sample run_glyphs
  = (Ok [[0xE9]; [0x20AC]; [0x1F600]; [122]]%N, after 4 run_glyphs)
  /\ exists bs,
       Utf8.encode [0xE9; 32; 0x20AC; 32; 0x1F600; 32; 122]%N = Ok bs
       /\ map Byte.to_N bs
          = [0xC3; 0xA9; 0x20; 0xE2; 0x82; 0xAC; 0x20;
             0xF0; 0x9F; 0x98; 0x80; 0x20; 0x7A]%N
       /\ Rfc3629.decoding (map Byte.to_N bs)
          = Some [0xE9; 32; 0x20AC; 32; 0x1F600; 32; 122]%N
       /\ hash_phrase [0xE9; 32; 0x20AC; 32; 0x1F600; 32; 122]%N
          = Ok (lit "36de8d4070b1489a66e694675fd1aed99e08efda94d75862b3ea40b78bab9db4")
       /\ Fips180.unhex (lit "36de8d4070b1489a66e694675fd1aed99e08efda94d75862b3ea40b78bab9db4")
          = Some (Fips180.sha256 (map Byte.to_N bs)).
Proof.
  split; [vm_compute; reflexivity|].
  destruct (C7_phrase_hash run_glyphs (after 4 run_glyphs)
              [[0xE9]; [0x20AC]; [0x1F600]; [122]]%N)
    as (bs & digest & He & Ho & Hd & Hh & Hu & _).
  { vm_compute. reflexivity. }
  assert (E : digest = lit "36de8d4070b1489a66e694675fd1aed99e08efda94d75862b3ea40b78bab9db4").
  { apply (f_equal (fun r => match r with Ok x => x | Raise _ => [] end)) in Hh.
    symmetry. exact Hh. }
  subst digest. exists bs.
  split; [exact He|]. split; [exact Ho|]. split; [exact Hd|].
  split; [vm_compute; reflexivity|]. exact Hu.
Defined.







(** X1. When lines 47-48 fail, whatever [open] or [readlines] raised
    (FileNotFoundError, IsADirectoryError, PermissionError, another
    OSError, UnicodeDecodeError) is what the run raises: no sampling call
    has been made and nothing is printed. *)
Theorem X1_unreadable_word_list (w : world) :
  wordlist_txt w = None ->
  pwgen w = (Raise (exn_of_read_error (wordlist_error w)), w).
Proof.
  intros Hw. apply pwgen_Raise. unfold pwgen_body. apply bind_raise.
  now apply sample_missing.
Qed.

Lemma X1_unreadable_word_list_witness :
  pwgen (world_without_file IsADirectory)
  = (Raise IsADirectoryError, world_without_file IsADirectory).
Proof.
  apply (X1_unreadable_word_list (world_without_file IsADirectory)).
  reflexivity.
Defined.

(** X2. With an empty word list [random.choices] raises IndexError on
    its first draw, and nothing is printed. *)
Theorem X2_empty_word_list (w : world) :
  wordlist_txt w = Some [] ->
  pwgen w = (Raise IndexError, after 1 w)
  /\ stdout (snd (pwgen w)) = stdout w.
Proof.
  intros Hw.
  assert (H : pwgen w = (Raise IndexError, after 1 w)).
  { apply pwgen_Raise. unfold pwgen_body. apply bind_raise.
    now apply sample_empty. }
  split; [assumption|]. now rewrite H.
Qed.

Lemma X2_empty_word_list_witness :
  pwgen (world_of [] []) = (Raise IndexError, after 1 (world_of [] []))
  /\ stdout (snd (pwgen (world_of [] []))) = stdout (world_of [] []).
Proof. apply (X2_empty_word_list (world_of [] [])). reflexivity. Defined.






(* ================================================================== *)
(** * Candidates, capital and symbol *)

(** X6. The candidates of line 64, for every selection: the list is
    always built; its entries follow the eligible characters of the
    selection, one entry for each occurrence and in their order, and the
    entry of an occurrence is the lowest index at which its character
    occurs.  So an index is a candidate exactly when its character is
    eligible and occurs at no lower index, and it is listed as many times
    as its character occurs. *)
Theorem X6_candidates_are_first_occurrences (ch : str) :
  exists pos,
    positions ch = Ok pos
    /\ Forall2 (fun c p =>
                  0 <= p /\ nth_error ch (Z.to_nat p) = Some c
                  /\ forall j, (j < Z.to_nat p)%nat -> nth_error ch j <> Some c)
               (filter (contains capl) ch) pos
    /\ forall p,
         In p pos <->
         exists c, 0 <= p /\ nth_error ch (Z.to_nat p) = Some c
                   /\ contains capl c = true
                   /\ forall j, (j < Z.to_nat p)%nat -> nth_error ch j <> Some c.
Proof.
  destruct (positions_total ch) as (pos & Hpos & Hlen).
  exists pos. split; [assumption|]. split.
  - pose proof (rmap_Ok _ _ _ Hpos) as HF.
    eapply Forall2_impl; [|exact HF]. cbv beta. intros c p Hi.
    unfold index in Hi. destruct (find ch c) as [k|] eqn:Hf; [|discriminate].
    injection Hi as <-. destruct (find_Some _ _ _ Hf) as [H1 H2].
    rewrite Nat2Z.id. split; [lia|]. now split.
  - intros p. split.
    + intros Hp.
      destruct (positions_In ch pos p Hpos Hp) as (c & Hc & Hr & Hn & Hm).
      exists c. repeat split; try assumption. lia.
    + intros (c & Hp & Hn & Hc & Hm).
      rewrite <- (Z2Nat.id p Hp).
      eapply positions_complete; eassumption.
Qed.

Lemma firstn_length_le' {A} (l : list A) n :
  (n <= length l)%nat -> length (firstn n l) = n.
Proof. intros H. rewrite length_firstn. lia. Qed.

Lemma nth_error_middle {A} (l1 l2 : list A) x n :
  n = length l1 -> nth_error (l1 ++ x :: l2) n = Some x.
Proof.
  intros ->. rewrite nth_error_app2 by lia. now rewrite Nat.sub_diag.
Qed.

Lemma hex_not (x : char) :
  contains Sha256.hexdigits x = true ->
  isupper x = false /\ contains symbols x = false /\ isspace x = false.
Proof.
  intros H. pose proof (contains_forall _ _ x hex_facts H) as Hf.
  cbv beta in Hf. rewrite !andb_true_iff, !negb_true_iff in Hf. tauto.
Qed.

Lemma capital_facts (c : char) :
  contains hex_letters c = true ->
  contains capitals (upper c) = true /\ isupper (upper c) = true
  /\ lower (upper c) = c
  /\ contains symbols (upper c) = false /\ isspace (upper c) = false.
Proof.
  intros H. pose proof (contains_forall _ _ c hex_letters_facts H) as Hf.
  cbv beta in Hf. rewrite !andb_true_iff in Hf.
  destruct Hf as ((((_ & _) & Hcap) & Hup) & Hlow).
  pose proof (contains_forall _ _ (upper c) capitals_facts Hcap) as Hg.
  cbv beta in Hg. rewrite !andb_true_iff, !negb_true_iff in Hg.
  apply N.eqb_eq in Hlow. tauto.
Qed.

Lemma symbol_facts (x : char) :
  In x symbols -> contains symbols x = true /\ isupper x = false
                  /\ isspace x = false.
Proof.
  intros H. apply contains_In in H.
  pose proof (contains_forall _ _ x symbols_facts H) as Hf.
  cbv beta in Hf. rewrite !andb_true_iff, !negb_true_iff in Hf. tauto.
Qed.

(** The capitalised string of a run: hex digits around one capital. *)
Lemma capitalised_shape w t w' :
  pwgen_body w = (Ok t, w') ->
  exists c left right,
    nth_error (l_ch t) (Z.to_nat (l_pi t)) = Some c
    /\ contains hex_letters c = true
    /\ l_pw t = left ++ [upper c] ++ right
    /\ length left = Z.to_nat (Z.max 0 (l_pi t - 1))
    /\ length right = (14 - Z.to_nat (l_pi t))%nat
    /\ (forall x, In x left -> contains Sha256.hexdigits x = true)
    /\ (forall x, In x right -> contains Sha256.hexdigits x = true).
Proof.
  intros H. destruct (run_shape w t w' H)
    as (c & Hhex & Hn & Hc & _ & Hpw & _ & _).
  destruct (run_facts w t w' H) as (Hlen & Hpi & _).
  exists c, (if l_pi t =? 0 then [] else firstn (Z.to_nat (l_pi t - 1)) (l_ch t)),
         (skipn (Z.to_nat (l_pi t + 1)) (l_ch t)).
  unfold len in Hlen.
  split; [assumption|]. split; [assumption|]. split; [assumption|]. split.
  { destruct (l_pi t =? 0) eqn:E.
    - apply Z.eqb_eq in E. rewrite E. reflexivity.
    - apply Z.eqb_neq in E. rewrite length_firstn. lia. }
  split; [rewrite length_skipn; lia|]. split.
  - intros x Hx. apply Hhex. destruct (l_pi t =? 0); [destruct Hx|].
    eapply In_firstn; eassumption.
  - intros x Hx. apply Hhex. eapply In_skipn; eassumption.
Qed.

(** X7. In a run that reaches its end the capitalised string holds
    exactly one uppercase character: the capital of the character at the
    chosen index, one of A, C, D, E, F, standing at index [pi - 1] (at 0
    when [pi] is 0); every other character is a hex digit of the
    selection. *)
Theorem X7_capitalised_string (w w' : world) :
  pwgen w = (Ok tt, w') ->
  exists t c,
    pwgen_body w = (Ok t, w')
    /\ nth_error (l_ch t) (Z.to_nat (l_pi t)) = Some c
    /\ In c hex_letters /\ In (upper c) capitals /\ lower (upper c) = c
    /\ nth_error (l_pw t) (Z.to_nat (Z.max 0 (l_pi t - 1))) = Some (upper c)
    /\ filter isupper (l_pw t) = [upper c]
    /\ forall x, In x (l_pw t) -> x = upper c \/ In x Sha256.hexdigits.
Proof.
  intros H. apply pwgen_Ok in H. destruct H as [t Ht].
  destruct (capitalised_shape w t w' Ht)
    as (c & left & right & Hn & Hc & Hpw & Hl & _ & Hleft & Hright).
  destruct (capital_facts c Hc) as (Hcap & Hup & Hlow & _).
  exists t, c. split; [assumption|]. split; [assumption|].
  split; [now apply contains_In|]. split; [now apply contains_In|].
  split; [assumption|]. rewrite Hpw. split; [|split].
  - apply nth_error_middle. now rewrite Hl.
  - rewrite !filter_app. simpl. rewrite Hup.
    rewrite (filter_none isupper left), (filter_none isupper right); [reflexivity| |].
    + intros x Hx. now apply hex_not, Hright.
    + intros x Hx. now apply hex_not, Hleft.
  - intros x Hx. apply in_app_or in Hx. destruct Hx as [Hx|[<-|Hx]].
    + right. now apply contains_In, Hleft.
    + now left.
    + right. now apply contains_In, Hright.
Qed.

Lemma X7_capitalised_string_witness :
  exists t c,
    pwgen_body run15 = (Ok t, snd (pwgen run15))
    /\ nth_error (l_ch t) (Z.to_nat (l_pi t)) = Some c
    /\ In c hex_letters /\ In (upper c) capitals /\ lower (upper c) = c
    /\ nth_error (l_pw t) (Z.to_nat (Z.max 0 (l_pi t - 1))) = Some (upper c)
    /\ filter isupper (l_pw t) = [upper c]
    /\ forall x, In x (l_pw t) -> x = upper c \/ In x Sha256.hexdigits.
Proof.
  apply (X7_capitalised_string run15 (snd (pwgen run15))).
  vm_compute. reflexivity.
Defined.

(** X8. Below the last index lines 79-85 insert: the output is one
    character longer, the symbol stands at the index, and taking it out
    gives the string back. *)
Theorem X8_insert_below_last_index (pw : str) (i : Z) (symbol : char) :
  0 <= i < len pw - 1 ->
  len (insert pw i symbol) = len pw + 1
  /\ nth_error (insert pw i symbol) (Z.to_nat i) = Some symbol
  /\ firstn (Z.to_nat i) (insert pw i symbol)
     ++ skipn (Z.to_nat i + 1) (insert pw i symbol) = pw.
Proof.
  intros Hi. unfold len in Hi.
  assert (Hl : length (firstn (Z.to_nat i) pw) = Z.to_nat i)
    by (apply firstn_length_le'; lia).
  rewrite insert_eq by lia.
  assert (E : (i <? len pw - 1) = true) by (apply Z.ltb_lt; unfold len; lia).
  rewrite E. split; [|split].
  - unfold len. rewrite !length_app, Hl, length_skipn. simpl. lia.
  - now apply nth_error_middle.
  - rewrite firstn_app, Hl, Nat.sub_diag, firstn_O, app_nil_r.
    rewrite firstn_firstn, Nat.min_id.
    rewrite skipn_app, Hl.
    rewrite (skipn_all2 (firstn (Z.to_nat i) pw)) by (rewrite Hl; lia).
    replace (Z.to_nat i + 1 - Z.to_nat i)%nat with 1%nat by lia.
    simpl. apply firstn_skipn.
Qed.

Lemma X8_insert_below_last_index_witness :
  len (insert (lit "e31bfD86f94613") 2 33%N) = len (lit "e31bfD86f94613") + 1
  /\ nth_error (insert (lit "e31bfD86f94613") 2 33%N) (Z.to_nat 2) = Some 33%N
  /\ firstn (Z.to_nat 2) (insert (lit "e31bfD86f94613") 2 33%N)
     ++ skipn (Z.to_nat 2 + 1) (insert (lit "e31bfD86f94613") 2 33%N)
     = lit "e31bfD86f94613".
Proof.
  apply (X8_insert_below_last_index (lit "e31bfD86f94613") 2 33%N).
  vm_compute. split; [discriminate|reflexivity].
Defined.

(** X9. At the last index they replace: the last character of the
    string gives way to the symbol and the length stays. *)
Theorem X9_insert_at_last_index (pw : str) (symbol : char) :
  1 <= len pw ->
  insert pw (len pw - 1) symbol = removelast pw ++ [symbol]
  /\ len (insert pw (len pw - 1) symbol) = len pw.
Proof.
  intros Hlen. unfold len in Hlen.
  assert (E : insert pw (len pw - 1) symbol = removelast pw ++ [symbol]).
  { rewrite insert_eq by (unfold len; lia). rewrite Z.ltb_irrefl.
    rewrite removelast_firstn_len. do 2 f_equal. unfold len. lia. }
  split; [assumption|]. rewrite E. unfold len.
  rewrite length_app, removelast_firstn_len, length_firstn. simpl. lia.
Qed.

Lemma X9_insert_at_last_index_witness :
  insert (lit "e31bfD86f94613") (len (lit "e31bfD86f94613") - 1) 33%N
  = removelast (lit "e31bfD86f94613") ++ [33%N]
  /\ len (insert (lit "e31bfD86f94613") (len (lit "e31bfD86f94613") - 1) 33%N)
     = len (lit "e31bfD86f94613").
Proof.
  apply (X9_insert_at_last_index (lit "e31bfD86f94613") 33%N).
  vm_compute. discriminate.
Defined.

(* ================================================================== *)
(** * The layout of the printed line *)

Ltac div4 e :=
  pose proof (Nat.div_mod_eq e 4);
  pose proof (Nat.mod_upper_bound e 4 ltac:(discriminate)).

Lemma str_block_ind (P : str -> Prop) :
  (forall s, (length s <= 4)%nat -> P s) ->
  (forall a b c d s, s <> [] -> P s -> P (a :: b :: c :: d :: s)) ->
  forall s, P s.
Proof.
  intros Hshort Hlong s. remember (length s) as n eqn:Hn. revert s Hn.
  induction n as [n IH] using (well_founded_induction Wf_nat.lt_wf).
  intros s ->.
  destruct s as [|a [|b [|c [|d [|e s]]]]]; try (apply Hshort; simpl; lia).
  apply Hlong; [discriminate|].
  apply (IH (length (e :: s))); [simpl; lia|reflexivity].
Qed.

Lemma format_short (s : str) : (length s <= 4)%nat -> format s = s.
Proof.
  intros H. unfold format. rewrite blocks4_chunks.
  destruct s as [|a s]; [reflexivity|].
  replace ((length (a :: s) + 3) / 4)%nat with 1%nat.
  - rewrite chunks_S. change (chunks 0 (skipn 4 (a :: s))) with (@nil str).
    cbn [join]. now apply firstn_all2.
  - simpl length in *. div4 (S (length s) + 3)%nat. lia.
Qed.

Lemma format_long (a b c d : char) (s : str) :
  s <> [] ->
  format (a :: b :: c :: d :: s) = a :: b :: c :: d :: 32%N :: format s.
Proof.
  intros Hne. unfold format. rewrite !blocks4_chunks.
  assert (Hm : ((length (a :: b :: c :: d :: s) + 3) / 4
                = S ((length s + 3) / 4))%nat).
  { simpl length. div4 (S (S (S (S (length s)))) + 3)%nat.
    div4 (length s + 3)%nat. lia. }
  rewrite Hm, chunks_S.
  change (skipn 4 (a :: b :: c :: d :: s)) with s.
  change (firstn 4 (a :: b :: c :: d :: s)) with [a; b; c; d].
  destruct ((length s + 3) / 4)%nat as [|m] eqn:Hq.
  - exfalso. destruct s; [congruence|]. simpl length in Hq.
    div4 (S (length s) + 3)%nat. lia.
  - rewrite chunks_S. reflexivity.
Qed.

Lemma format_length (s : str) :
  length (format s) = (length s + ((length s + 3) / 4 - 1))%nat.
Proof.
  induction s as [s Hs|a b c d s Hne IH] using str_block_ind.
  - rewrite format_short by assumption. div4 (length s + 3)%nat. lia.
  - rewrite format_long by assumption. simpl length. rewrite IH.
    assert (1 <= length s)%nat by (destruct s; [congruence|simpl; lia]).
    div4 (S (S (S (S (length s)))) + 3)%nat. div4 (length s + 3)%nat. lia.
Qed.

Lemma format_columns (s : str) :
  forall j, (j < length s)%nat ->
            nth_error (format s) (j + j / 4) = nth_error s j.
Proof.
  induction s as [s Hs|a b c d s Hne IH] using str_block_ind; intros j Hj.
  - rewrite format_short by assumption.
    replace (j / 4)%nat with 0%nat by (div4 j; lia). now rewrite Nat.add_0_r.
  - rewrite format_long by assumption.
    destruct j as [|[|[|[|j]]]]; try reflexivity.
    replace (S (S (S (S j))) + S (S (S (S j))) / 4)%nat
      with (5 + (j + j / 4))%nat
      by (div4 (S (S (S (S j)))); div4 j; lia).
    simpl in Hj. change (nth_error (format s) (j + j / 4) = nth_error s j).
    apply IH. lia.
Qed.

Lemma format_separators (s : str) :
  forall k, (5 * k + 4 < length (format s))%nat ->
            nth_error (format s) (5 * k + 4) = Some 32%N.
Proof.
  induction s as [s Hs|a b c d s Hne IH] using str_block_ind; intros k Hk.
  - rewrite format_short in Hk by assumption. lia.
  - rewrite format_long in * by assumption. destruct k as [|k]; [reflexivity|].
    replace (5 * S k + 4)%nat with (5 + (5 * k + 4))%nat in * by lia.
    simpl in Hk. change (nth_error (format s) (5 * k + 4) = Some 32%N).
    apply IH. lia.
Qed.

Lemma remove_spaces_format (s : str) :
  remove_spaces (format s) = remove_spaces s.
Proof.
  unfold format. rewrite remove_spaces_join, blocks4_chunks.
  now rewrite concat_chunks by apply blocks_count.
Qed.

(** X10. The layout of the display line, for every string: character
    [j] of the string is shown in column [j + j / 4], the columns 4, 9,
    14, ... hold the separating space, and the line is as long as the
    string and one separator between consecutive blocks (so an empty
    string gives an empty line, and no line ends in a separator). *)
Theorem X10_format_layout (s : str) :
  length (format s) = (length s + ((length s + 3) / 4 - 1))%nat
  /\ (forall j, (j < length s)%nat ->
        nth_error (format s) (j + j / 4) = nth_error s j)
  /\ (forall k, (5 * k + 4 < length (format s))%nat ->
        nth_error (format s) (5 * k + 4) = Some 32%N).
Proof.
  split; [apply format_length|]. split; [apply format_columns|].
  apply format_separators.
Qed.

(** X11. The blocks of line 88, for every string: there are
    [ceil(len / 4)] of them, none is empty, none has more than four
    characters, and all but the last have exactly four. *)
Theorem X11_blocks_shape (s : str) :
  length (blocks4 s) = ((length s + 3) / 4)%nat
  /\ forall k b,
       nth_error (blocks4 s) k = Some b ->
       (1 <= length b <= 4)%nat
       /\ ((S k < length (blocks4 s))%nat -> length b = 4%nat).
Proof.
  rewrite blocks4_chunks. unfold chunks. rewrite length_map, length_seq.
  split; [reflexivity|]. intros k b Hb.
  rewrite nth_error_map, nth_error_seq in Hb.
  destruct (Nat.ltb_spec k ((length s + 3) / 4)) as [Hk|Hge]; [|discriminate].
  assert (Hb' : b = firstn 4 (skipn (4 * (0 + k)) s))
    by (unfold option_map in Hb; congruence).
  subst b. rewrite length_firstn, length_skipn.
  div4 (length s + 3)%nat. split; lia.
Qed.

(* ================================================================== *)
(** * The final password of a run *)

Lemma pw_plain w t w' :
  pwgen_body w = (Ok t, w') ->
  forall x, In x (l_pw t) ->
    contains symbols x = false /\ isspace x = false
    /\ (In x Sha256.hexdigits \/ In x capitals).
Proof.
  intros H x Hx. destruct (capitalised_shape w t w' H)
    as (c & left & right & _ & Hc & Hpw & _ & _ & Hleft & Hright).
  rewrite Hpw in Hx. apply in_app_or in Hx.
  assert (Hhex : forall y, contains Sha256.hexdigits y = true ->
                   contains symbols y = false /\ isspace y = false
                   /\ (In y Sha256.hexdigits \/ In y capitals)).
  { intros y Hy. destruct (hex_not y Hy) as (_ & H1 & H2).
    repeat split; try assumption. left. now apply contains_In. }
  destruct Hx as [Hx|[<-|Hx]].
  - now apply Hhex, Hleft.
  - destruct (capital_facts c Hc) as (H1 & _ & _ & H2 & H3).
    repeat split; try assumption. right. now apply contains_In.
  - now apply Hhex, Hright.
Qed.

Lemma final_eq w t w' :
  pwgen_body w = (Ok t, w') ->
  (Z.to_nat (l_pi' t) < length (l_pw t))%nat
  /\ In (l_symbol t) symbols
  /\ l_final t
     = firstn (Z.to_nat (l_pi' t)) (l_pw t) ++ [l_symbol t]
       ++ (if l_pi' t <? len (l_pw t) - 1
           then skipn (Z.to_nat (l_pi' t)) (l_pw t) else []).
Proof.
  intros H. destruct (run_shape w t w' H) as (c & _ & _ & _ & _ & _ & Hsym & Hfin).
  destruct (run_facts w t w' H) as (_ & _ & _ & Hsi & _).
  unfold len in Hsi. split; [lia|]. now split.
Qed.

(** X12. In a run that reaches its end the symbol is a character of
    [symbols], it stands at index [pi'] of the final password, and it is
    the only character of the final password that [symbols] holds. *)
Theorem X12_symbol_of_a_run (w w' : world) :
  pwgen w = (Ok tt, w') ->
  exists t,
    pwgen_body w = (Ok t, w')
    /\ In (l_symbol t) symbols
    /\ nth_error (l_final t) (Z.to_nat (l_pi' t)) = Some (l_symbol t)
    /\ filter (contains symbols) (l_final t) = [l_symbol t].
Proof.
  intros H. apply pwgen_Ok in H. destruct H as [t Ht]. exists t.
  destruct (final_eq w t w' Ht) as (Hn & Hsym & Hfin).
  split; [assumption|]. split; [assumption|]. rewrite Hfin. split.
  - apply nth_error_middle. symmetry. apply firstn_length_le'. lia.
  - rewrite !filter_app. cbn [filter].
    destruct (symbol_facts _ Hsym) as (-> & _).
    rewrite filter_none.
    + rewrite filter_none; [reflexivity|].
      intros x Hx. apply (pw_plain w t w' Ht).
      destruct (l_pi' t <? len (l_pw t) - 1); [|destruct Hx].
      eapply In_skipn; eassumption.
    + intros x Hx. apply (pw_plain w t w' Ht). eapply In_firstn; eassumption.
Qed.

Lemma X12_symbol_of_a_run_witness :
  exists t,
    pwgen_body run14 = (Ok t, snd (pwgen run14))
    /\ In (l_symbol t) symbols
    /\ nth_error (l_final t) (Z.to_nat (l_pi' t)) = Some (l_symbol t)
    /\ filter (contains symbols) (l_final t) = [l_symbol t].
Proof.
  apply (X12_symbol_of_a_run run14 (snd (pwgen run14))).
  vm_compute. reflexivity.
Defined.

Lemma filter_firstn_skipn {A} (f : A -> bool) n l :
  filter f (firstn n l) ++ filter f (skipn n l) = filter f l.
Proof. now rewrite <- filter_app, firstn_skipn. Qed.

(** X13. The uppercase characters of the final password: the capital
    of the capitalised string, and nothing else; except when the
    capitalisation index is 14 and the insertion index 13, where the
    symbol has taken the capital's place and no uppercase character is
    left. *)
Theorem X13_uppercase_of_the_final_password (w w' : world) :
  pwgen w = (Ok tt, w') ->
  exists t c,
    pwgen_body w = (Ok t, w')
    /\ nth_error (l_ch t) (Z.to_nat (l_pi t)) = Some c
    /\ In (upper c) capitals
    /\ filter isupper (l_final t)
       = if (l_pi t =? 14) && (l_pi' t =? 13) then [] else [upper c].
Proof.
  intros H. apply pwgen_Ok in H. destruct H as [t Ht].
  destruct (capitalised_shape w t w' Ht)
    as (c & left & right & Hn & Hc & Hpw & Hl & Hr & Hleft & Hright).
  destruct (capital_facts c Hc) as (Hcap & Hup & _).
  destruct (final_eq w t w' Ht) as (Hsi & Hsym & Hfin).
  destruct (run_facts w t w' Ht) as (_ & Hpi & _ & Hsi' & _).
  destruct (symbol_facts _ Hsym) as (_ & Hsu & _).
  exists t, c. split; [assumption|]. split; [assumption|].
  split; [now apply contains_In|].
  assert (Fl : filter isupper left = []).
  { apply filter_none. intros x Hx. now apply hex_not, Hleft. }
  assert (Fr : forall n, filter isupper (firstn n right) = []).
  { intros n. apply filter_none. intros x Hx. apply hex_not, Hright.
    eapply In_firstn; eassumption. }
  assert (Fpw : filter isupper (l_pw t) = [upper c]).
  { rewrite Hpw, !filter_app, Fl. cbn [filter]. rewrite Hup.
    rewrite <- (firstn_all right), Fr. reflexivity. }
  assert (Hlen : length (l_pw t) = (length left + 1 + length right)%nat).
  { rewrite Hpw, !length_app. simpl. lia. }
  rewrite Hfin, !filter_app. cbn [filter]. rewrite Hsu.
  destruct (l_pi' t <? len (l_pw t) - 1) eqn:E.
  - apply Z.ltb_lt in E. unfold len in E.
    rewrite app_nil_l, filter_firstn_skipn, Fpw.
    destruct (l_pi t =? 14) eqn:E1; [|reflexivity].
    destruct (l_pi' t =? 13) eqn:E2; [|reflexivity].
    apply Z.eqb_eq in E1, E2. exfalso. lia.
  - apply Z.ltb_ge in E. unfold len in E, Hsi'.
    assert (Hnat : Z.to_nat (l_pi' t) = (length left + length right)%nat) by lia.
    rewrite Hnat, Hpw, firstn_app.
    rewrite (firstn_all2 (n := (length left + length right)%nat) left) by lia.
    replace (length left + length right - length left)%nat
      with (length right) by lia.
    rewrite app_nil_r, filter_app, Fl, app_nil_l.
    destruct (l_pi t =? 14) eqn:E1.
    + apply Z.eqb_eq in E1.
      assert (Hr0 : length right = 0%nat) by lia.
      destruct right; [|discriminate Hr0].
      replace (l_pi' t =? 13) with true; [reflexivity|].
      symmetry. apply Z.eqb_eq. cbn [length] in *. lia.
    + apply Z.eqb_neq in E1. cbn [andb].
      destruct right as [|r right]; [cbn [length] in Hr; lia|].
      cbn [app length firstn filter]. rewrite Hup, Fr. reflexivity.
Qed.

Lemma X13_uppercase_of_the_final_password_witness :
  exists t c,
    pwgen_body run_capital_last = (Ok t, snd (pwgen run_capital_last))
    /\ nth_error (l_ch t) (Z.to_nat (l_pi t)) = Some c
    /\ In (upper c) capitals
    /\ filter isupper (l_final t)
       = if (l_pi t =? 14) && (l_pi' t =? 13) then [] else [upper c].
Proof.
  apply (X13_uppercase_of_the_final_password run_capital_last
           (snd (pwgen run_capital_last))).
  vm_compute. reflexivity.
Defined.

Lemma not_space (x : char) : isspace x = false -> N.eqb x 32 = false.
Proof.
  intros H. destruct (N.eqb_spec x 32) as [->|]; [discriminate H|reflexivity].
Qed.

Lemma remove_spaces_id (s : str) :
  (forall x, In x s -> isspace x = false) -> remove_spaces s = s.
Proof.
  induction s as [|c s IH]; intros H; [reflexivity|].
  unfold remove_spaces in *. cbn [filter].
  rewrite (not_space c (H c (or_introl eq_refl))). cbn [negb].
  rewrite IH; [reflexivity|]. intros x Hx. apply H. now right.
Qed.

Lemma final_plain w t w' :
  pwgen_body w = (Ok t, w') ->
  forall x, In x (l_final t) ->
    isspace x = false
    /\ (In x Sha256.hexdigits \/ In x capitals \/ In x symbols).
Proof.
  intros H x Hx. destruct (final_eq w t w' H) as (_ & Hsym & Hfin).
  rewrite Hfin in Hx. apply in_app_or in Hx.
  assert (Hpw : forall y, In y (l_pw t) ->
                  isspace y = false
                  /\ (In y Sha256.hexdigits \/ In y capitals \/ In y symbols)).
  { intros y Hy. destruct (pw_plain w t w' H y Hy) as (_ & H1 & H2). tauto. }
  destruct Hx as [Hx|[<-|Hx]].
  - apply Hpw. eapply In_firstn; eassumption.
  - destruct (symbol_facts _ Hsym) as (_ & _ & H1). tauto.
  - destruct (l_pi' t <? len (l_pw t) - 1); [|destruct Hx].
    apply Hpw. eapply In_skipn; eassumption.
Qed.

Lemma final_length w t w' :
  pwgen_body w = (Ok t, w') -> (14 <= length (l_final t) <= 16)%nat.
Proof.
  intros H. destruct (run_facts w t w' H) as (_ & _ & Hpw & Hsi & Hfin & _).
  pose proof (insert_len (l_pw t) (l_pi' t) (l_symbol t) Hsi) as Hl.
  rewrite <- Hfin in Hl. unfold len in *.
  destruct (l_pi t >? 0); destruct (l_pi' t <? _); lia.
Qed.

(** X14. The line that a run prints: one line, of four blocks and three
    separators, 17 to 19 characters long.  Its characters other than the
    separators are hex digits, the capitals A C D E F and the symbols,
    none of which is a space, so that deleting the spaces of the line
    gives the final password. *)
Theorem X14_printed_line (w w' : world) :
  pwgen w = (Ok tt, w') ->
  exists t,
    pwgen_body w = (Ok t, w')
    /\ stdout w' = stdout w ++ [format (l_final t)]
    /\ length (blocks4 (l_final t)) = 4%nat
    /\ length (format (l_final t)) = (length (l_final t) + 3)%nat
    /\ (17 <= length (format (l_final t)) <= 19)%nat
    /\ (forall x, In x (l_final t) ->
          In x Sha256.hexdigits \/ In x capitals \/ In x symbols)
    /\ remove_spaces (format (l_final t)) = l_final t.
Proof.
  intros H. apply pwgen_Ok in H. destruct H as [t Ht]. exists t.
  destruct (run_facts w t w' Ht) as (_ & _ & _ & _ & _ & Hout).
  pose proof (final_length w t w' Ht) as Hlen.
  assert (Hq : ((length (l_final t) + 3) / 4 = 4)%nat).
  { div4 (length (l_final t) + 3)%nat. lia. }
  split; [assumption|]. split; [assumption|]. split.
  { rewrite blocks4_chunks. unfold chunks. now rewrite length_map, length_seq. }
  assert (Hf : length (format (l_final t)) = (length (l_final t) + 3)%nat).
  { rewrite format_length, Hq. reflexivity. }
  split; [assumption|]. split; [lia|]. split.
  - intros x Hx. now apply (final_plain w t w' Ht).
  - rewrite remove_spaces_format. apply remove_spaces_id.
    intros x Hx. now apply (final_plain w t w' Ht).
Qed.

Lemma X14_printed_line_witness :
  exists t,
    pwgen_body run16 = (Ok t, snd (pwgen run16))
    /\ stdout (snd (pwgen run16)) = stdout run16 ++ [format (l_final t)]
    /\ length (blocks4 (l_final t)) = 4%nat
    /\ length (format (l_final t)) = (length (l_final t) + 3)%nat
    /\ (17 <= length (format (l_final t)) <= 19)%nat
    /\ (forall x, In x (l_final t) ->
          In x Sha256.hexdigits \/ In x capitals \/ In x symbols)
    /\ remove_spaces (format (l_final t)) = l_final t.
Proof.
  apply (X14_printed_line run16 (snd (pwgen run16))).
  vm_compute. reflexivity.
Defined.

(** X15. The selection of a run: the digest has 64 characters, the
    selection 15; character [j] of the selection is the digest's
    character at the index of draw [4 + j], so every character of the
    selection is a hex digit of the digest and a digest character may be
    selected more than once. *)
Theorem X15_selection_of_a_run (w w' : world) :
  pwgen w = (Ok tt, w') ->
  exists t,
    pwgen_body w = (Ok t, w')
    /\ length (l_hphrase t) = 64%nat
    /\ length (l_ch t) = 15%nat
    /\ (forall j, (j < 15)%nat ->
          0 <= drawn_index w (4 + j) 64 < 64
          /\ nth_error (l_ch t) j
             = nth_error (l_hphrase t) (Z.to_nat (drawn_index w (4 + j) 64)))
    /\ forall x, In x (l_ch t) -> In x (l_hphrase t) /\ In x Sha256.hexdigits.
Proof.
  intros H. apply pwgen_Ok in H. destruct H as [t Ht]. exists t.
  destruct (pwgen_body_Ok w t w' Ht) as (pos & _ & Hh & Hsel & _).
  destruct (hash_phrase_Ok _ _ Hh) as [Hl Hhex].
  destruct (select_Ok _ _ _ _ Hsel) as (_ & _ & Hlen & Hn).
  split; [assumption|]. split; [assumption|]. split; [assumption|]. split.
  - intros j Hj. split; [now apply drawn_index_range|].
    rewrite (Hn j Hj). unfold len. rewrite Hl.
    unfold drawn_index, after. cbn [drawn entropy].
    now rewrite <- Nat.add_assoc.
  - intros x Hx. assert (Hin : In x (l_hphrase t))
      by (eapply select_chars; eassumption).
    split; [assumption|]. now apply contains_In, Hhex.
Qed.

Lemma X15_selection_of_a_run_witness :
  exists t,
    pwgen_body run15 = (Ok t, snd (pwgen run15))
    /\ length (l_hphrase t) = 64%nat
    /\ length (l_ch t) = 15%nat
    /\ (forall j, (j < 15)%nat ->
          0 <= drawn_index run15 (4 + j) 64 < 64
          /\ nth_error (l_ch t) j
             = nth_error (l_hphrase t) (Z.to_nat (drawn_index run15 (4 + j) 64)))
    /\ forall x, In x (l_ch t) -> In x (l_hphrase t) /\ In x Sha256.hexdigits.
Proof.
  apply (X15_selection_of_a_run run15 (snd (pwgen run15))).
  vm_compute. reflexivity.
Defined.

(* ================================================================== *)
(** * What the run takes from the file *)

Lemma same_rng_refl w : same_rng w w.
Proof. now repeat split. Qed.

Lemma same_rng_after k w1 w2 :
  same_rng w1 w2 -> same_rng (after k w1) (after k w2).
Proof.
  intros (He & Hd & Hs). unfold same_rng, after. simpl. now rewrite He, Hd, Hs.
Qed.

Lemma same_rng_index w1 w2 j n :
  same_rng w1 w2 -> drawn_index w1 j n = drawn_index w2 j n.
Proof. intros (He & Hd & _). unfold drawn_index. now rewrite He, Hd. Qed.

Lemma bind_agree {A B} (m1 m2 : M A) (k : A -> M B) w1 w2 :
  fst (m1 w1) = fst (m2 w2) ->
  same_rng (snd (m1 w1)) (snd (m2 w2)) ->
  (forall a, file_blind (k a)) ->
  fst ((x <- m1 ;; k x) w1) = fst ((x <- m2 ;; k x) w2)
  /\ same_rng (snd ((x <- m1 ;; k x) w1)) (snd ((x <- m2 ;; k x) w2)).
Proof.
  unfold bind. destruct (m1 w1) as [[a|e] v1], (m2 w2) as [[a'|e'] v2];
    simpl; intros Hf Hs Hk; try discriminate.
  - injection Hf as <-. now apply Hk.
  - injection Hf as <-. now split.
Qed.

Lemma blind_bind {A B} (m : M A) (k : A -> M B) :
  file_blind m -> (forall a, file_blind (k a)) -> file_blind (x <- m ;; k x).
Proof.
  intros Hm Hk w1 w2 Hw. destruct (Hm w1 w2 Hw) as [Hf Hs].
  now apply bind_agree.
Qed.

Lemma blind_ret {A} (a : A) : file_blind (ret a).
Proof. intros w1 w2 Hw. now split. Qed.

Lemma blind_lift {A} (r : result A) : file_blind (lift r).
Proof. intros w1 w2 Hw. now split. Qed.

Lemma blind_raise {A} (e : exn) : file_blind (@raise A e).
Proof. intros w1 w2 Hw. now split. Qed.

Lemma blind_below n : file_blind (Random.below n).
Proof.
  intros w1 w2 Hw. rewrite !below_eq. simpl. split.
  - now rewrite (same_rng_index w1 w2 0 n Hw).
  - now apply same_rng_after.
Qed.

Lemma blind_print s : file_blind (print s).
Proof.
  intros w1 w2 (He & Hd & Hs). unfold print, same_rng. simpl.
  now rewrite He, Hd, Hs.
Qed.

Lemma blind_choice {A} (seq : list A) : file_blind (Random.choice seq).
Proof.
  unfold Random.choice. destruct (len seq =? 0); [apply blind_raise|].
  apply blind_bind; [apply blind_below|intros i; apply blind_lift].
Qed.

Lemma blind_choices {A} (population : list A) k :
  file_blind (Random.choices population k).
Proof.
  induction k as [|k IH]; simpl; [apply blind_ret|].
  apply blind_bind; [apply blind_below|intros i].
  apply blind_bind; [apply blind_lift|intros x].
  apply blind_bind; [exact IH|intros xs]. apply blind_ret.
Qed.

Lemma blind_randint a b : file_blind (Random.randint a b).
Proof.
  unfold Random.randint. destruct (0 <? b + 1 - a); [|apply blind_raise].
  apply blind_bind; [apply blind_below|intros i; apply blind_ret].
Qed.

(** Lines 54-94 read nothing of the file. *)
Lemma blind_after_sample (words : list str) :
  file_blind
    (hphrase <- lift (hash_phrase (phrase_of words)) ;;
     ch <- select hphrase ;;
     pi <- capital_index ch ;;
     pw <- lift (capitalise ch pi) ;;
     pi' <- symbol_index pw ;;
     symbol <- Random.choice symbols ;;
     _ <- print (format (insert pw pi' symbol)) ;;
     ret (Locals words hphrase ch pi pw pi' symbol (insert pw pi' symbol))).
Proof.
  apply blind_bind; [apply blind_lift|intros hphrase].
  apply blind_bind.
  { unfold select. apply blind_bind; [apply blind_choices|intros; apply blind_ret]. }
  intros ch. apply blind_bind.
  { unfold capital_index.
    apply blind_bind; [apply blind_lift|intros; apply blind_choice]. }
  intros pi. apply blind_bind; [apply blind_lift|intros pw].
  apply blind_bind; [apply blind_randint|intros pi'].
  apply blind_bind; [apply blind_choice|intros symbol].
  apply blind_bind; [apply blind_print|intros; apply blind_ret].
Qed.

Lemma sample_stripped w1 w2 l1 l2 :
  wordlist_txt w1 = Some l1 -> wordlist_txt w2 = Some l2 ->
  map rstrip l1 = map rstrip l2 -> same_rng w1 w2 ->
  fst (sample w1) = fst (sample w2)
  /\ same_rng (snd (sample w1)) (snd (sample w2)).
Proof.
  intros H1 H2 Hm Hw.
  assert (Hlen : length l1 = length l2).
  { rewrite <- (length_map rstrip l1), Hm. apply length_map. }
  destruct l1 as [|a l1], l2 as [|b l2]; try discriminate Hlen.
  - rewrite (sample_empty w1 H1), (sample_empty w2 H2). simpl.
    split; [reflexivity|now apply same_rng_after].
  - destruct (sample_eq w1 _ H1) as (a0 & a1 & a2 & a3 & Hs1 & Hn1); [discriminate|].
    destruct (sample_eq w2 _ H2) as (b0 & b1 & b2 & b3 & Hs2 & Hn2); [discriminate|].
    rewrite Hs1, Hs2. cbn [fst snd].
    split; [|now apply same_rng_after]. f_equal.
    apply nth_error_ext. intros n. rewrite !nth_error_map.
    destruct (Nat.lt_ge_cases n 4) as [Hlt|Hge].
    + rewrite (Hn1 n Hlt), (Hn2 n Hlt).
      unfold len. rewrite Hlen.
      rewrite (same_rng_index w1 w2 n _ Hw).
      rewrite <- !nth_error_map. now rewrite Hm.
    + replace (nth_error [a0; a1; a2; a3] n) with (@None str)
        by (symmetry; apply nth_error_None; simpl; lia).
      replace (nth_error [b0; b1; b2; b3] n) with (@None str)
        by (symmetry; apply nth_error_None; simpl; lia).
      reflexivity.
Qed.

(** X16. The password depends on the lines of the file only through
    their [rstrip]: two runs on the same generator whose word lists are
    equal once every line is stripped (newline or not, trailing spaces
    or not) end alike and print the same. *)
Theorem X16_trailing_whitespace_is_irrelevant
        (w1 w2 : world) (l1 l2 : list str) :
  wordlist_txt w1 = Some l1 -> wordlist_txt w2 = Some l2 ->
  map rstrip l1 = map rstrip l2 ->
  same_rng w1 w2 ->
  fst (pwgen w1) = fst (pwgen w2)
  /\ stdout (snd (pwgen w1)) = stdout (snd (pwgen w2))
  /\ drawn (snd (pwgen w1)) = drawn (snd (pwgen w2)).
Proof.
  intros H1 H2 Hm Hw.
  destruct (sample_stripped w1 w2 l1 l2 H1 H2 Hm Hw) as [Hf Hs].
  assert (Hb : fst (pwgen_body w1) = fst (pwgen_body w2)
               /\ same_rng (snd (pwgen_body w1)) (snd (pwgen_body w2))).
  { unfold pwgen_body. apply bind_agree; try assumption.
    intros words. apply blind_after_sample. }
  destruct Hb as [Hbf Hbs].
  destruct (bind_agree pwgen_body pwgen_body (fun _ => ret tt) w1 w2 Hbf Hbs)
    as [Hp (_ & Hd & Ho)].
  { intros a. apply blind_ret. }
  unfold pwgen. now repeat split.
Qed.

Lemma X16_trailing_whitespace_is_irrelevant_witness :
  fst (pwgen run15)
  = fst (pwgen (world_of (map lit ["apple"; "banana"; "cherry"; "delta"; "echo  "]%string)
                         (pick_phrase ++ first15 ++ [3; 2; 2])))
  /\ stdout (snd (pwgen run15))
     = stdout (snd (pwgen (world_of (map lit ["apple"; "banana"; "cherry"; "delta"; "echo  "]%string)
                                    (pick_phrase ++ first15 ++ [3; 2; 2]))))
  /\ drawn (snd (pwgen run15))
     = drawn (snd (pwgen (world_of (map lit ["apple"; "banana"; "cherry"; "delta"; "echo  "]%string)
                                   (pick_phrase ++ first15 ++ [3; 2; 2])))).
Proof.
  apply (X16_trailing_whitespace_is_irrelevant run15
           (world_of (map lit ["apple"; "banana"; "cherry"; "delta"; "echo  "]%string)
                     (pick_phrase ++ first15 ++ [3; 2; 2]))
           fruit
           (map lit ["apple"; "banana"; "cherry"; "delta"; "echo  "]%string)).
  - reflexivity.
  - reflexivity.
  - vm_compute. reflexivity.
  - unfold same_rng. repeat split.
Defined.
